(** * Late fusion of expert logits: [mustard_fusion.py] and [sarc_fusion.py]

    A shallow embedding of the record loader, the fusion strategies and the
    metric evaluation of [expert_fusion/mustard_fusion.py] and
    [expert_fusion/sarc/sarc_fusion.py], with the properties stated about
    them.

    Python dictionaries keep insertion order, and several strategies rely on
    it ([zip(weights, data["logits"].values())]); they are association lists
    updated in place.  Their contents as finite maps are recovered by
    [index_of] (a [gmap]).

    The arithmetic of the scripts is that of IEEE binary64 numbers.  The
    code is written once over the interface [Scalar] and read at two
    instances: the binary64 numbers of the kernel ([PrimFloat], with the
    exponential of the C library as a parameter), which evaluates, and the
    real numbers, where exact statements about probabilities such as 0.81
    make sense. *)

From Stdlib Require Import ZArith QArith Reals Lra Lia List String Bool.
From Stdlib Require Import Floats.
From stdpp Require Import base option list gmap strings.

Import ListNotations.
Local Open Scope string_scope.
Local Open Scope Z_scope.

(** ** Numbers *)

(** The operations the scripts use on numbers.  [sleb], [sltb] and [seqb]
    are Python's [<=], [<] and [==]; [of_nat] is the conversion of a length
    to a number in [sum(x) / len(x)]. *)
Class Scalar (F : Type) : Type := {
  szero : F;
  sadd : F -> F -> F;
  smul : F -> F -> F;
  sdiv : F -> F -> F;
  sexp : F -> F;
  sltb : F -> F -> bool;
  sleb : F -> F -> bool;
  seqb : F -> F -> bool;
  of_nat : nat -> F
}.

(** [x > y] is [y < x]. *)
Definition sgtb {F} `{Scalar F} (x y : F) : bool := sltb y x.

(** What every instance below satisfies and the general statements need:
    [<] is a strict order as far as these three facts go, and a number that
    is not a NaN is [<=] itself. *)
Class ScalarLaws (F : Type) `{Scalar F} : Prop := {
  sltb_irrefl : forall x : F, sltb x x = false;
  sltb_asym : forall x y : F, sltb x y = true -> sltb y x = false;
  sleb_refl : forall x : F, seqb x x = true -> sleb x x = true
}.

(** Binary64.  [np_exp] stands for the exponential of the platform. *)
Definition float_of_nat (n : nat) : float := PrimFloat.of_uint63 (Uint63.of_Z (Z.of_nat n)).

Definition float_scalar (np_exp : float -> float) : Scalar float := {|
  szero := PrimFloat.zero;
  sadd := PrimFloat.add;
  smul := PrimFloat.mul;
  sdiv := PrimFloat.div;
  sexp := np_exp;
  sltb := PrimFloat.ltb;
  sleb := PrimFloat.leb;
  seqb := PrimFloat.eqb;
  of_nat := float_of_nat
|}.

(** An exponential on binary64 to evaluate with: the argument is divided by
    [4096], the series of the exponential is summed to its 18th term, and
    the sum is squared twelve times.  It is close to the exponential of the
    C library, not equal to it bit for bit, and overflows where that one
    does. *)
Definition exp_series_sum (x : float) : float :=
  fold_right (fun k acc => 1 + x * acc / k)%float 1%float
    (map float_of_nat (seq 1 17)).

Fixpoint square_times (n : nat) (y : float) : float :=
  match n with
  | O => y
  | S n' => square_times n' (y * y)%float
  end.

Definition exp_series (x : float) : float :=
  if (x <? 0)%float
  then (1 / square_times 12 (exp_series_sum (- x / 4096)))%float
  else square_times 12 (exp_series_sum (x / 4096))%float.

(** Real numbers. *)
Definition Rltb (x y : R) : bool := if Rlt_dec x y then true else false.
Definition Rleb (x y : R) : bool := if Rle_dec x y then true else false.
Definition Reqb (x y : R) : bool := if Req_dec_T x y then true else false.

Definition real_scalar : Scalar R := {|
  szero := 0%R;
  sadd := Rplus;
  smul := Rmult;
  sdiv := Rdiv;
  sexp := exp;
  sltb := Rltb;
  sleb := Rleb;
  seqb := Reqb;
  of_nat := INR
|}.

(** ** Python values and exceptions *)

(** The exceptions the scripts can raise. *)
Inductive py_error : Type :=
  | AssertionError (msg : string)
  | KeyError (key : string)
  | ValueError
  | IndexError
  | StopIteration
  | ZeroDivisionError.

(** A computation that returns or raises. *)
Definition result : Type -> Type := sum py_error.
Definition Ok {A} (x : A) : result A := inr x.
Definition Raise {A} (e : py_error) : result A := inl e.

#[global] Instance result_ret : MRet result := fun _ x => inr x.
#[global] Instance result_bind : MBind result := fun _ _ f m =>
  match m with inl e => inl e | inr x => f x end.
#[global] Instance result_fmap : FMap result := fun _ _ f m =>
  match m with inl e => inl e | inr x => inr (f x) end.

(** A [dict]: keys in insertion order, each key once.  Assigning to a key
    that is present keeps its position; a new key goes last. *)
Definition pydict (V : Type) : Type := list (string * V).

Fixpoint dict_get {V} (k : string) (d : pydict V) : option V :=
  match d with
  | [] => None
  | (k', v) :: d' => if String.eqb k k' then Some v else dict_get k d'
  end.

Fixpoint dict_set {V} (k : string) (v : V) (d : pydict V) : pydict V :=
  match d with
  | [] => [(k, v)]
  | (k', v') :: d' =>
      if String.eqb k k' then (k, v) :: d' else (k', v') :: dict_set k v d'
  end.

Definition dict_keys {V} (d : pydict V) : list string := map fst d.
Definition dict_values {V} (d : pydict V) : list V := map snd d.

(** [d[k]] on a plain [dict]. *)
Definition dict_item {V} (k : string) (d : pydict V) : result V :=
  match dict_get k d with
  | Some v => Ok v
  | None => Raise (KeyError k)
  end.

(** [d[k]] on a [defaultdict] whose factory returns [dflt]: a missing key
    reads as the default (and is stored; the functions below that read
    this way either write the key next or raise before the map is used
    again). *)
Definition defaultdict_item {V} (dflt : V) (k : string) (d : pydict V) : V :=
  match dict_get k d with
  | Some v => v
  | None => dflt
  end.

(** A [for] loop over [l] whose body updates a state and may raise. *)
Fixpoint for_each {A B} (body : B -> A -> result A) (l : list B) (a : A) : result A :=
  match l with
  | [] => Ok a
  | x :: l' => a' ← body x a; for_each body l' a'
  end.

(** ** The record loader *)

Section Loader.
Context {F : Type}.

(** One line of an expert's JSON-Lines file. *)
Record line : Type := Line {
  image_id : string;
  text : string;
  line_logits : list F;
  line_target : Z
}.

(** [{"logits": defaultdict(list), "target": None}], the value of
    [results] at one [data_id]. *)
Record example : Type := Example {
  logits : pydict (list F);
  target : option Z
}.

Definition new_example : example := {| logits := []; target := None |}.

(** [f"{image_id}_{text}"]. *)
Definition data_id (ln : line) : string := image_id ln ++ "_" ++ text ln.

Definition mismatch_msg : string :=
  "Targets do not match across subsets for the same data.".

(** The body of the inner loop of [load_and_transform_data], for one line
    of the file of subset [name]; the state is [(dataset, results)]. *)
Definition record_line (name : string) (ln : line)
    (st : pydict (list line) * pydict example)
    : result (pydict (list line) * pydict example) :=
  let '(dataset, results) := st in
  let dataset := dict_set name (defaultdict_item [] name dataset ++ [ln])%list dataset in
  let ex := defaultdict_item new_example (data_id ln) results in
  let ex := {| logits := dict_set name (line_logits ln) (logits ex);
               target := target ex |} in
  let ex := match target ex with
            | None => {| logits := logits ex; target := Some (line_target ln) |}
            | Some _ => ex
            end in
  let results := dict_set (data_id ln) ex results in
  match target ex with
  | Some t =>
      if Z.eqb t (line_target ln) then Ok (dataset, results)
      else Raise (AssertionError mismatch_msg)
  | None => Raise (AssertionError mismatch_msg)
  end.

(** The loader, over the list of subset names it reads, in that order;
    [open_file name] is the content of the file of subset [name]. *)
Definition load_subsets (subset_names : list string) (open_file : string -> list line)
    : result (pydict (list line) * pydict example) :=
  for_each (fun name st => for_each (record_line name) (open_file name) st)
    subset_names ([], []).

(** [mustard_fusion.py]. *)
Definition load_and_transform_baseline := load_subsets ["baseline"].
Definition load_and_transform_data := load_subsets ["AS"; "R"; "U"; "baseline"].

(** [sarc_fusion.py]. *)
Definition sarc_load_and_transform_data := load_subsets ["AS"; "R"; "U"].

(** The target kept for the example of a line is the target of the line. *)
Definition target_kept (results : pydict example) (ln : line) : Prop :=
  exists ex, dict_get (data_id ln) results = Some ex
             /\ target ex = Some (line_target ln).

(** The aggregated index as a finite map: for each [data_id], its logits
    by expert and its target. *)
Definition example_view (ex : example) : gmap string (list F) * option Z :=
  (list_to_map (logits ex), target ex).

Definition index_of (results : pydict example)
    : gmap string (gmap string (list F) * option Z) :=
  example_view <$> (list_to_map results : gmap string example).

(** The loader on the index: what reading one line, one file and the files
    of a list of subsets does to the finite map ([None] when the [assert]
    fails). *)
Definition index_step (name : string) (ln : line)
    (m : gmap string (gmap string (list F) * option Z))
    : option (gmap string (gmap string (list F) * option Z)) :=
  let ex := default (∅, None) (m !! data_id ln) in
  let t := match snd ex with Some t => t | None => line_target ln end in
  if Z.eqb t (line_target ln)
  then Some (<[data_id ln := (<[name := line_logits ln]> (fst ex), Some t)]> m)
  else None.

Definition index_file (name : string) (lines : list line)
    (om : option (gmap string (gmap string (list F) * option Z)))
    : option (gmap string (gmap string (list F) * option Z)) :=
  fold_left (fun om ln => om ≫= index_step name ln) lines om.

Definition index_files (open_file : string -> list line) (names : list string)
    (om : option (gmap string (gmap string (list F) * option Z)))
    : option (gmap string (gmap string (list F) * option Z)) :=
  fold_left (fun om name => index_file name (open_file name) om) names om.

End Loader.

Arguments line : clear implicits.
Arguments example : clear implicits.

(** ** Lists of numbers: Python built-ins and NumPy *)

Section Numeric.
Context {F : Type} `{Scalar F}.

(** [x != x], true of a NaN only. *)
Definition is_nan (x : F) : bool := negb (seqb x x).

(** [sum(l)]: from [0], left to right (the compensated sum that CPython
    3.12 uses for floats is not modelled). *)
Definition py_sum (l : list F) : F := fold_left sadd l szero.

(** [max(l)] keeps the first of the greatest items: a later item replaces
    the current one only when it is [>].  The position of the item that
    is returned is kept with it. *)
Fixpoint py_max_from (i k : nat) (m : F) (l : list F) : nat * F :=
  match l with
  | [] => (k, m)
  | x :: l' => if sgtb x m then py_max_from (S i) i x l' else py_max_from (S i) k m l'
  end.

Definition py_max_pos (l : list F) : result (nat * F) :=
  match l with
  | [] => Raise ValueError
  | x :: l' => Ok (py_max_from 1 0 x l')
  end.

Definition py_max (l : list F) : result F := snd <$> py_max_pos l.

(** [l.index(m)] where [m] is the item of [l] at position [k]: the first
    position whose item is [m] itself or [==] to it. *)
Fixpoint py_index_from (i k : nat) (m : F) (l : list F) : result nat :=
  match l with
  | [] => Raise ValueError
  | x :: l' => if Nat.eqb i k || seqb x m then Ok i else py_index_from (S i) k m l'
  end.

(** [l.index(max(l))]. *)
Definition index_of_max (l : list F) : result nat :=
  km ← py_max_pos l; py_index_from 0 (fst km) (snd km) l.

(** [zip] of the lists [ls] (the starred call): the tuples of the items
    at the same position, as long as every list has one. *)
Fixpoint heads (ls : list (list F)) : option (list F) :=
  match ls with
  | [] => Some []
  | [] :: _ => None
  | (x :: _) :: ls' => cons x <$> heads ls'
  end.

Fixpoint zip_star_fuel (n : nat) (ls : list (list F)) : list (list F) :=
  match n with
  | O => []
  | S n' =>
      match heads ls with
      | Some hs => hs :: zip_star_fuel n' (map (@tail F) ls)
      | None => []
      end
  end.

Definition zip_star (ls : list (list F)) : list (list F) :=
  match ls with
  | [] => []
  | l :: _ => zip_star_fuel (length l) ls
  end.

(** [np.sum(a)] of a vector: the reduction starts from the identity [0]
    and adds the items from left to right (the pairwise blocks NumPy forms
    from eight items on are not modelled). *)
Definition np_sum (a : list F) : F := fold_left sadd a szero.

(** [np.exp(logits) / np.sum(np.exp(logits))]. *)
Definition softmax (logits : list F) : list F :=
  map (fun e => sdiv e (np_sum (map sexp logits))) (map sexp logits).

(** [np.maximum] keeps a NaN; [np.max(a)] reduces with it. *)
Definition np_maximum (a b : F) : F := if sleb b a || is_nan a then a else b.

Definition np_max (a : list F) : result F :=
  match a with
  | [] => Raise ValueError
  | x :: a' => Ok (fold_left np_maximum a' x)
  end.

(** [np.argmax(a)]: the first position of the maximum, a NaN being
    maximal; a later item replaces the current one when it is not [<=]. *)
Fixpoint np_argmax_from (i k : nat) (mp : F) (a : list F) : nat :=
  match a with
  | [] => k
  | x :: a' =>
      if negb (sleb x mp)
      then (if is_nan x then i else np_argmax_from (S i) i x a')
      else np_argmax_from (S i) k mp a'
  end.

Definition np_argmax (a : list F) : result nat :=
  match a with
  | [] => Raise ValueError
  | x :: a' => Ok (if is_nan x then O else np_argmax_from 1 0 x a')
  end.

(** [np.mean(rows, axis=0)] of the rows [row :: rows]: the rows are added
    one after the other to a row of zeros and the sums are divided by the
    number of rows; rows of different lengths do not form an array. *)
Definition np_mean_axis0 (row : list F) (rows : list (list F)) : result (list F) :=
  if forallb (fun r => Nat.eqb (length r) (length row)) rows
  then Ok (map (fun s => sdiv s (of_nat (S (length rows))))
             (fold_left (zip_with sadd) (row :: rows) (replicate (length row) szero)))
  else Raise ValueError.

End Numeric.

(** ** Metrics

    [sklearn.metrics] as the scripts call it: binary average, positive
    label [1], and a zero denominator giving [0.0] with a warning.  The
    values are kept as exact ratios in lowest terms; the scripts hold their
    binary64 roundings. *)

Definition ratio (num den : nat) : Q := Qred (Z.of_nat num # Pos.of_nat den).

(** A ratio whose denominator may be zero. *)
Definition prf_divide (num den : nat) : Q :=
  if Nat.eqb den 0 then 0%Q else ratio num den.

Definition count_pairs (p : Z -> Z -> bool) (gths preds : list Z) : nat :=
  length (List.filter (fun tp => p (fst tp) (snd tp)) (combine gths preds)).

Definition true_positives : list Z -> list Z -> nat :=
  count_pairs (fun t p => Z.eqb t 1 && Z.eqb p 1).
Definition predicted_positives : list Z -> list Z -> nat :=
  count_pairs (fun _ p => Z.eqb p 1).
Definition actual_positives : list Z -> list Z -> nat :=
  count_pairs (fun t _ => Z.eqb t 1).
Definition matches : list Z -> list Z -> nat :=
  count_pairs Z.eqb.

(** The checks of the scores: a [None] among the targets, sequences of
    different lengths and, for the binary scores, more than two labels, or
    two labels neither of which is [1], are refused. *)
Definition known_targets (gths : list (option Z)) (preds : list nat) : result (list Z) :=
  match mapM (fun t : option Z => t) gths with
  | Some ts => if Nat.eqb (length ts) (length preds) then Ok ts else Raise ValueError
  | None => Raise ValueError
  end.

Definition check_binary (gths preds : list Z) : result unit :=
  let present := nodup Z.eq_dec (gths ++ preds)%list in
  if Nat.ltb 2 (length present) then Raise ValueError
  else if Nat.leb 2 (length present) && negb (existsb (Z.eqb 1) present)
       then Raise ValueError
       else Ok tt.

Definition binary_score (score : list Z -> list Z -> Q)
    (gths : list (option Z)) (preds : list nat) : result Q :=
  ts ← known_targets gths preds;
  _ ← check_binary ts (map Z.of_nat preds);
  Ok (score ts (map Z.of_nat preds)).

Definition precision_score : list (option Z) -> list nat -> result Q :=
  binary_score (fun ts ps => prf_divide (true_positives ts ps) (predicted_positives ts ps)).

Definition recall_score : list (option Z) -> list nat -> result Q :=
  binary_score (fun ts ps => prf_divide (true_positives ts ps) (actual_positives ts ps)).

Definition f1_score : list (option Z) -> list nat -> result Q :=
  binary_score (fun ts ps =>
    prf_divide (2 * true_positives ts ps) (actual_positives ts ps + predicted_positives ts ps)).

(** The fraction of exact matches; [None] is the NaN of an empty mean. *)
Definition accuracy_score (gths : list (option Z)) (preds : list nat) : result (option Q) :=
  ts ← known_targets gths preds;
  Ok (match ts with
      | [] => None
      | _ => Some (ratio (matches ts (map Z.of_nat preds)) (length ts))
      end).

(** The tuple [(f1, precision, recall, accuracy)] every function of
    [mustard_fusion.py] returns. *)
Record metrics : Type := Metrics {
  f1 : Q;
  precision : Q;
  recall : Q;
  accuracy : option Q
}.

Definition evaluate (gths : list (option Z)) (preds : list nat) : result metrics :=
  f ← f1_score gths preds;
  p ← precision_score gths preds;
  r ← recall_score gths preds;
  a ← accuracy_score gths preds;
  Ok (Metrics f p r a).

(** ** Fusion strategies *)

Section Fusion.
Context {F : Type} `{Scalar F}.

Local Abbreviation example := (example F).

(** A list comprehension whose items may raise. *)
Fixpoint comprehension {A B} (f : A -> result B) (l : list A) : result (list B) :=
  match l with
  | [] => Ok []
  | x :: l' => y ← f x; ys ← comprehension f l'; Ok (y :: ys)
  end.

(** *** The label of one example

    The expressions that compute [predicted_label] are the same in the
    two scripts. *)

(** [data["logits"][interaction_type]], then [.index(max(...))].  The
    logits are a [defaultdict(list)]: a missing expert reads as [[]],
    whose [max] raises. *)
Definition interaction_type_vector (interaction_type : string) (data : example)
    : list F :=
  defaultdict_item [] interaction_type (logits data).

Definition interaction_type_label (interaction_type : string) (data : example)
    : result nat :=
  index_of_max (interaction_type_vector interaction_type data).

(** [[sum(logits) / len(logits) for logits in zip(...)]]. *)
Definition simple_average_vector (data : example) : list F :=
  map (fun col => sdiv (py_sum col) (of_nat (length col)))
    (zip_star (dict_values (logits data))).

Definition simple_average_label (data : example) : result nat :=
  index_of_max (simple_average_vector data).

(** [sum(w * logits[i] for w, logits in zip(weights, ...))]. *)
Definition weighted_sum (weights : list F) (values : list (list F)) (i : nat) : result F :=
  for_each (fun wl acc =>
              match snd wl !! i with
              | Some x => Ok (sadd acc (smul (fst wl) x))
              | None => Raise IndexError
              end)
    (combine weights values) szero.

(** The positions are those of the logits of the first expert,
    [next(iter(data["logits"].values()))]. *)
Definition weighted_vector (weights : list F) (data : example) : result (list F) :=
  match dict_values (logits data) with
  | [] => Raise StopIteration
  | first :: _ =>
      comprehension (weighted_sum weights (dict_values (logits data)))
        (seq 0 (length first))
  end.

Definition weighted_average_label (weights : list F) (data : example) : result nat :=
  weighted_logits ← weighted_vector weights data;
  index_of_max weighted_logits.

(** [[max(logits) for logits in zip(...)]]. *)
Definition max_vector (data : example) : result (list F) :=
  comprehension py_max (zip_star (dict_values (logits data))).

Definition max_fusion_label (data : example) : result nat :=
  max_logits ← max_vector data;
  index_of_max max_logits.

(** [np.mean(softmaxed_probs, axis=0)]; [None] when there is no expert at
    all: the mean is then a single NaN, whose [argmax] is [0]. *)
Definition softmax_vector (data : example) : result (option (list F)) :=
  match map softmax (dict_values (logits data)) with
  | [] => Ok None
  | p :: ps => Some <$> np_mean_axis0 p ps
  end.

Definition softmax_fusion_label (data : example) : result nat :=
  average_probs ← softmax_vector data;
  match average_probs with
  | None => Ok O
  | Some a => np_argmax a
  end.

(** The inner loop of [cascaded_fusion]: the softmax of each expert of
    the example is stored under the expert's name. *)
Definition store_softmax (data : example) (softmaxed_probs : pydict (list F))
    : pydict (list F) :=
  fold_left (fun sp kv => dict_set (fst kv) (softmax (snd kv)) sp)
    (logits data) softmaxed_probs.

(** The decision of [cascaded_fusion] on the stored probabilities. *)
Definition cascaded_decision (threshold : F) (softmaxed_probs : pydict (list F))
    : result nat :=
  max_r ← dict_item "R" softmaxed_probs ≫= np_max;
  both ← (if sgtb max_r threshold
          then max_u ← dict_item "U" softmaxed_probs ≫= np_max;
               Ok (sgtb max_u threshold)
          else Ok false);
  if both : bool
  then max_u ← dict_item "U" softmaxed_probs ≫= np_max;
       if sgtb max_r max_u
       then dict_item "R" softmaxed_probs ≫= np_argmax
       else dict_item "U" softmaxed_probs ≫= np_argmax
  else dict_item "AS" softmaxed_probs ≫= np_argmax.

(** *** [mustard_fusion.py] *)

(** The loop shared by the strategies: the targets and the labels of the
    examples, in the order of [results.items()]. *)
Definition score_examples (label : example -> result nat) (results : pydict example)
    : result (list (option Z) * list nat) :=
  for_each (fun kv st =>
              predicted_label ← label (snd kv);
              Ok (fst st ++ [target (snd kv)], snd st ++ [predicted_label])%list)
    results ([], []).

Definition interaction_type_acc (results : pydict example) (interaction_type : string)
    : result metrics :=
  gp ← score_examples (interaction_type_label interaction_type) results;
  evaluate (fst gp) (snd gp).

Definition simple_average_fusion (results : pydict example) : result metrics :=
  gp ← score_examples simple_average_label results;
  evaluate (fst gp) (snd gp).

Definition weighted_average_fusion (results : pydict example) (weights : list F)
    : result metrics :=
  gp ← score_examples (weighted_average_label weights) results;
  evaluate (fst gp) (snd gp).

Definition max_fusion (results : pydict example) : result metrics :=
  gp ← score_examples max_fusion_label results;
  evaluate (fst gp) (snd gp).

Definition softmax_fusion (results : pydict example) : result metrics :=
  gp ← score_examples softmax_fusion_label results;
  evaluate (fst gp) (snd gp).

(** [cascaded_fusion] creates [softmaxed_probs] once, before the loop
    over the examples: the dictionary is part of the state of the loop. *)
Definition cascaded_body (threshold : F) (kv : string * example)
    (st : pydict (list F) * (list (option Z) * list nat))
    : result (pydict (list F) * (list (option Z) * list nat)) :=
  let softmaxed_probs := store_softmax (snd kv) (fst st) in
  predicted_label ← cascaded_decision threshold softmaxed_probs;
  Ok (softmaxed_probs,
      (fst (snd st) ++ [target (snd kv)], snd (snd st) ++ [predicted_label])%list).

Definition cascaded_scores (results : pydict example) (threshold : F)
    : result (list (option Z) * list nat) :=
  snd <$> for_each (cascaded_body threshold) results ([], ([], [])).

Definition cascaded_fusion (results : pydict example) (threshold : F) : result metrics :=
  gp ← cascaded_scores results threshold;
  evaluate (fst gp) (snd gp).

(** *** [sarc_fusion.py]

    The functions count the correct labels and return
    [correct / len(results)]. *)

Definition is_correct (predicted_label : nat) (data : example) : bool :=
  match target data with
  | Some t => Z.eqb (Z.of_nat predicted_label) t
  | None => false
  end.

Definition sarc_accuracy (label : example -> result nat) (results : pydict example)
    : result Q :=
  correct ← for_each (fun kv correct =>
                        predicted_label ← label (snd kv);
                        Ok (if is_correct predicted_label (snd kv)
                            then S correct else correct))
               results O;
  match results with
  | [] => Raise ZeroDivisionError
  | _ => Ok (ratio correct (length results))
  end.

Definition sarc_interaction_type_acc (results : pydict example) (interaction_type : string) :=
  sarc_accuracy (interaction_type_label interaction_type) results.
Definition sarc_simple_average_fusion (results : pydict example) :=
  sarc_accuracy simple_average_label results.
Definition sarc_weighted_average_fusion (results : pydict example) (weights : list F) :=
  sarc_accuracy (weighted_average_label weights) results.
Definition sarc_max_fusion (results : pydict example) :=
  sarc_accuracy max_fusion_label results.
Definition sarc_softmax_fusion (results : pydict example) :=
  sarc_accuracy softmax_fusion_label results.

(** Here [softmaxed_probs] is created anew for each example. *)
Definition sarc_cascaded_label (threshold : F) (data : example) : result nat :=
  cascaded_decision threshold (store_softmax data []).

Definition sarc_cascaded_fusion (results : pydict example) (threshold : F) :=
  sarc_accuracy (sarc_cascaded_label threshold) results.

End Fusion.

(** ** The fusion with one weight for each example and expert

    [simple_average_fusion_model] of [mustard_fusion.py] reads the file
    [test_rus_logits.json]; [rus_logits] is what [json.load] returns for
    it, an object that gives a list of numbers for a [data_id]. *)

Section FusionModel.
Context {F : Type} `{Scalar F}.

(** [l[i]] on a list. *)
Definition list_item {A} (l : list A) (i : nat) : result A :=
  match l !! i with
  | Some x => Ok x
  | None => Raise IndexError
  end.

(** [a * w], a vector by a number. *)
Definition np_scale (a : list F) (w : F) : list F := map (fun x => smul x w) a.

(** [a + b] on vectors.  Vectors of the same length are added position by
    position; a vector of one item is added to each item of the other one;
    other lengths cannot be broadcast together. *)
Definition np_add (a b : list F) : result (list F) :=
  if Nat.eqb (length a) (length b) then Ok (zip_with sadd a b)
  else match a, b with
       | _, [y] => Ok (map (fun x => sadd x y) a)
       | [x], _ => Ok (map (fun y => sadd x y) b)
       | _, _ => Raise ValueError
       end.

(** [softmaxed_probs[k] * rus_logits[data_id][k]]. *)
Definition model_term (rus_logits : pydict (list F)) (softmaxed_probs : list (list F))
    (data_id : string) (k : nat) : result (list F) :=
  p ← list_item softmaxed_probs k;
  ws ← dict_item data_id rus_logits;
  w ← list_item ws k;
  Ok (np_scale p w).

(** The sum of the three terms, from left to right. *)
Definition model_vector (rus_logits : pydict (list F)) (data_id : string)
    (data : example F) : result (list F) :=
  let softmaxed_probs := map softmax (dict_values (logits data)) in
  t0 ← model_term rus_logits softmaxed_probs data_id 0;
  t1 ← model_term rus_logits softmaxed_probs data_id 1;
  s ← np_add t0 t1;
  t2 ← model_term rus_logits softmaxed_probs data_id 2;
  np_add s t2.

Definition model_label (rus_logits : pydict (list F)) (data_id : string)
    (data : example F) : result nat :=
  average_probs ← model_vector rus_logits data_id data;
  np_argmax average_probs.

Definition model_scores (rus_logits : pydict (list F)) (results : pydict (example F))
    : result (list (option Z) * list nat) :=
  for_each (fun kv st =>
              predicted_label ← model_label rus_logits (fst kv) (snd kv);
              Ok (fst st ++ [target (snd kv)], snd st ++ [predicted_label])%list)
    results ([], []).

Definition simple_average_fusion_model (rus_logits : pydict (list F))
    (results : pydict (example F)) : result metrics :=
  gp ← model_scores rus_logits results;
  evaluate (fst gp) (snd gp).

End FusionModel.

(** ** Notions used in the statements *)

(** The cascade as the specification words it.  For the logits [lr], [lu]
    and [las] of the experts [R], [U] and [AS]: when the greatest probabilities of [R] and of [U] both exceed the
    threshold the label is the argmax of the one whose greatest probability
    is strictly higher (and of [U] when [R]'s is not strictly higher, which
    covers a tie); otherwise it is the argmax of [AS]. *)
Definition cascade_rule {F} `{Scalar F} (threshold : F) (lr lu las : list F)
    (label : nat) : Prop :=
  exists max_r max_u,
    np_max (softmax lr) = Ok max_r /\ np_max (softmax lu) = Ok max_u /\
    (sgtb max_r threshold = true /\ sgtb max_u threshold = true ->
       (sgtb max_r max_u = true -> np_argmax (softmax lr) = Ok label) /\
       (sgtb max_u max_r = true -> np_argmax (softmax lu) = Ok label) /\
       (sgtb max_r max_u = false -> np_argmax (softmax lu) = Ok label)) /\
    (~ (sgtb max_r threshold = true /\ sgtb max_u threshold = true) ->
       np_argmax (softmax las) = Ok label).

(** A message names an example when the [data_id] occurs in it. *)
Definition names_example (msg data_id : string) : bool :=
  match String.index 0 data_id msg with
  | Some _ => true
  | None => false
  end.

(** The elementwise weighted sum of the vectors [values], of length [len],
    each weight going with the vector at its position. *)
Definition elementwise_weighted_sum {F} `{Scalar F} (weights : list F)
    (values : list (list F)) (len : nat) : list F :=
  map (fun i =>
         fold_left (fun acc wl => sadd acc (smul (fst wl) (nth i (snd wl) szero)))
           (combine weights values) szero)
    (seq 0 len).

(** ** Test data *)

(** Three examples scored by two experts [A] and [B]. *)
Definition scenario_A : list (line float) :=
  [ Line "1" "a" [2; 1]%float 0; Line "2" "b" [1; 2]%float 1;
    Line "3" "c" [0; 3]%float 1 ].

Definition scenario_B : list (line float) :=
  [ Line "1" "a" [1; 2]%float 0; Line "2" "b" [2; 1]%float 1;
    Line "3" "c" [1; 0]%float 1 ].

Definition scenario_files (name : string) : list (line float) :=
  if String.eqb name "A" then scenario_A
  else if String.eqb name "B" then scenario_B
  else [].

Definition scenario_results : pydict (example float) :=
  [ ("1_a", Example [("A", [2; 1]); ("B", [1; 2])]%float (Some 0));
    ("2_b", Example [("A", [1; 2]); ("B", [2; 1])]%float (Some 1));
    ("3_c", Example [("A", [0; 3]); ("B", [1; 0])]%float (Some 1)) ].

(** The binary64 number that [0.3] denotes, and an example on which every
    strategy combines the logits of two experts into [[0.3, 0.3]]. *)
Definition three_tenths : float := 0x1.3333333333333p-2%float.

Definition tie_example : example float :=
  Example [("AS", [three_tenths; three_tenths]); ("R", [three_tenths; three_tenths])]
    (Some 0).

(** An example whose only expert has the logits [[1000, 1000]]. *)
Definition overflow_example : example float :=
  Example [("AS", [1000; 1000]%float)] (Some 0).

(** An example with the three experts of the cascade. *)
Definition confident_example : example float :=
  Example [("AS", [0; 1]); ("R", [3; 0]); ("U", [0; 2])]%float (Some 0).

(** In exact arithmetic: an example whose expert [R] has the probabilities
    [[0.81, 0.19]], whose expert [U] has [[0.5, 0.5]] and whose expert [AS]
    has [[0.25, 0.75]]. *)
Definition boundary_example : example R :=
  Example [("AS", [0; ln 3]); ("R", [ln (81 / 19); 0]); ("U", [0; 0])]%R (Some 1).

(** In exact arithmetic: an example without the expert [R], and two
    examples that may be scored before it, one whose expert [R] has the
    probabilities [[0.75, 0.25]] and one whose expert [R] has
    [[0.5, 0.5]]. *)
Definition partial_example : example R :=
  Example [("AS", [0; ln 3]); ("U", [ln 3; 0])]%R (Some 1).

Definition confident_first : example R :=
  Example [("AS", [0; 0]); ("R", [ln 3; 0]); ("U", [ln 3; 0])]%R (Some 0).

Definition hesitant_first : example R :=
  Example [("AS", [0; 0]); ("R", [0; 0]); ("U", [0; 0])]%R (Some 0).

(** The same on binary64. *)
Definition partial_example64 : example float :=
  Example [("AS", [0; 2]); ("U", [2; 0])]%float (Some 1).

Definition confident_first64 : example float :=
  Example [("AS", [0; 0]); ("R", [2; 0]); ("U", [2; 0])]%float (Some 0).

Definition hesitant_first64 : example float :=
  Example [("AS", [0; 0]); ("R", [0; 0]); ("U", [0; 0])]%float (Some 0).

(** Two experts that disagree on the target of the example ["7_wow"]. *)
Definition conflicting_files (name : string) : list (line float) :=
  if String.eqb name "AS" then [Line "7" "wow" [0; 1]%float 1]
  else if String.eqb name "R" then [Line "7" "wow" [1; 0]%float 0]
  else [].

(** An example with two experts, to be weighted. *)
Definition weighted_example : example float :=
  Example [("AS", [0; 1]); ("R", [5; 0])]%float (Some 0).

(** ** Notions used in the statements about the loader *)


(** An example as the loader leaves it: a target, at least one expert, each
    expert once and among the subsets read. *)
Definition loaded_example {F} (names : list string) (ex : example F) : Prop :=
  (exists t, target ex = Some t)
  /\ logits ex <> []
  /\ NoDup (dict_keys (logits ex))
  /\ (forall k, In k (dict_keys (logits ex)) -> In k names).

(** [results[data_id]["logits"][name]], when both keys are there. *)
Definition stored_logits {F} (results : pydict (example F)) (data_id name : string)
    : option (list F) :=
  match dict_get data_id results with
  | Some ex => dict_get name (logits ex)
  | None => None
  end.

(** The lines of a file that are about one example, in the order of the
    file. *)
Definition lines_about {F} (id : string) (lines : list (line F)) : list (line F) :=
  List.filter (fun l => String.eqb (data_id l) id) lines.


(** ** Notions used in the statements about the strategies *)

(** The length of the shortest of the vectors [ls] ([0] when there is
    none). *)
Fixpoint min_length {A} (ls : list (list A)) : nat :=
  match ls with
  | [] => O
  | [l] => length l
  | l :: ls' => Nat.min (length l) (min_length ls')
  end.

(** An example that holds the three experts of the cascade. *)
Definition complete_example {F} (data : example F) : Prop :=
  NoDup (dict_keys (logits data))
  /\ (exists lr, dict_get "R" (logits data) = Some lr)
  /\ (exists lu, dict_get "U" (logits data) = Some lu)
  /\ (exists las, dict_get "AS" (logits data) = Some las).

(** An example that holds the experts [AS] and [R] only. *)
Definition no_U_example : example float :=
  Example [("AS", [0; 1]); ("R", [0; 0])]%float (Some 1).

(** In exact arithmetic: [i] is the first position of a greatest item of
    [l]. *)
Definition first_max (l : list R) (i : nat) : Prop :=
  exists x, l !! i = Some x
            /\ (forall y, In y l -> (y <= x)%R)
            /\ (forall j y, (j < i)%nat -> l !! j = Some y -> (y < x)%R).


(** An example with four experts and a file of weights for it. *)
Definition four_experts : example float :=
  Example [("AS", [0; 1]); ("R", [3; 0]); ("U", [0; 2]); ("baseline", [1; 1])]%float
    (Some 0).

Definition rus_file : pydict (list float) := [("7_wow", [0.5; 0.25; 0.25]%float)].



(** * Properties *)

(** [Forall P [x1; ...; xn]], each [P xi] by [tac]. *)
Ltac forall_list tac :=
  repeat first [apply List.Forall_nil | apply List.Forall_cons; [solve [tac]|]].

Lemma result_bind_Ok {A B} (x : A) (f : A -> result B) : Ok x ≫= f = f x.
Proof. reflexivity. Qed.

(** A loop that returns ran its body on every item; a loop that raises
    raised in its body. *)
Lemma for_each_cons {A B} (body : B -> A -> result A) (x : B) (l : list B) (a : A) :
  for_each body (x :: l) a = body x a ≫= for_each body l.
Proof. reflexivity. Qed.

Lemma for_each_cons_Ok {A B} (body : B -> A -> result A) (x : B) (l : list B) (a b : A) :
  for_each body (x :: l) a = Ok b ->
  exists a', body x a = Ok a' /\ for_each body l a' = Ok b.
Proof.
  simpl. destruct (body x a) as [e|a']; simpl; [discriminate | eauto].
Qed.

Lemma for_each_cons_Raise {A B} (body : B -> A -> result A) (x : B) (l : list B)
    (a : A) (e : py_error) :
  for_each body (x :: l) a = Raise e ->
  body x a = Raise e \/ exists a', body x a = Ok a' /\ for_each body l a' = Raise e.
Proof.
  simpl. destruct (body x a) as [e'|a']; simpl; [left; assumption | eauto].
Qed.

(** ** The two number systems satisfy the laws *)

Lemma SFcompare_refl (s : spec_float) :
  SFcompare s s = None \/ SFcompare s s = Some Eq.
Proof.
  destruct s as [sg | sg | | sg m e]; simpl; auto.
  - right; destruct sg; reflexivity.
  - right; destruct sg; rewrite Z.compare_refl, Pos.compare_cont_refl; reflexivity.
Qed.

Lemma SFcompare_antisym (a b : spec_float) :
  SFcompare b a = option_map CompOpp (SFcompare a b).
Proof.
  destruct a as [sa | sa | | sa ma ea], b as [sb | sb | | sb mb eb];
    simpl; try reflexivity;
    try (destruct sa; reflexivity); try (destruct sb; reflexivity);
    try (destruct sa, sb; reflexivity).
  destruct sa, sb; simpl; try reflexivity;
    rewrite (Z.compare_antisym ea eb);
    destruct (ea ?= eb)%Z; simpl; try reflexivity;
    pose proof (Pos.compare_cont_antisym ma mb Eq) as E; simpl in E;
    rewrite <- E; try rewrite CompOpp_involutive; reflexivity.
Qed.

#[global] Instance float_laws (np_exp : float -> float) :
  @ScalarLaws float (float_scalar np_exp).
Proof.
  split; simpl.
  - intros x. rewrite FloatAxioms.ltb_spec. unfold SFltb.
    destruct (SFcompare_refl (Prim2SF x)) as [-> | ->]; reflexivity.
  - intros x y. rewrite !FloatAxioms.ltb_spec. unfold SFltb.
    rewrite (SFcompare_antisym (Prim2SF x) (Prim2SF y)).
    destruct (SFcompare (Prim2SF x) (Prim2SF y)) as [[]|]; simpl; congruence.
  - intros x. rewrite FloatAxioms.eqb_spec, FloatAxioms.leb_spec. unfold SFeqb, SFleb.
    destruct (SFcompare (Prim2SF x) (Prim2SF x)) as [[]|]; congruence.
Qed.

Lemma Rltb_true (x y : R) : Rltb x y = true <-> (x < y)%R.
Proof. unfold Rltb. destruct (Rlt_dec x y); split; auto; discriminate. Qed.

Lemma Rleb_true (x y : R) : Rleb x y = true <-> (x <= y)%R.
Proof. unfold Rleb. destruct (Rle_dec x y); split; auto; discriminate. Qed.

Lemma Reqb_true (x y : R) : Reqb x y = true <-> x = y.
Proof. unfold Reqb. destruct (Req_dec_T x y); split; auto; discriminate. Qed.

#[global] Instance real_laws : @ScalarLaws R real_scalar.
Proof.
  split; simpl.
  - intros x. destruct (Rltb x x) eqn:E; [apply Rltb_true in E; lra | reflexivity].
  - intros x y Hxy. apply Rltb_true in Hxy.
    destruct (Rltb y x) eqn:E; [apply Rltb_true in E; lra | reflexivity].
  - intros x _. apply Rleb_true. lra.
Qed.

(** ** The end-to-end scenario *)

(** C5.  Three examples and two experts, [A] with logits [2,1], [1,2],
    [0,3] and [B] with logits [1,2], [2,1], [1,0], targets [0,1,1]: the
    loader builds the three aggregated examples, the elementwise averages
    are [1.5,1.5], [1.5,1.5] and [0.5,1.5], [simple_average_fusion] labels
    the examples [0,0,1], and the accuracy is 2/3 in both scripts. *)
Theorem simple_average_scenario (np_exp : float -> float) :
  load_subsets ["A"; "B"] scenario_files
    = Ok ([("A", scenario_A); ("B", scenario_B)], scenario_results)
  /\ map (fun kv => @simple_average_vector _ (float_scalar np_exp) (snd kv)) scenario_results
     = [[1.5; 1.5]; [1.5; 1.5]; [0.5; 1.5]]%float
  /\ score_examples (@simple_average_label _ (float_scalar np_exp)) scenario_results
     = Ok ([Some 0; Some 1; Some 1], [0; 0; 1]%nat)
  /\ accuracy <$> @simple_average_fusion _ (float_scalar np_exp) scenario_results
     = Ok (Some (2 # 3)%Q)
  /\ @sarc_simple_average_fusion _ (float_scalar np_exp) scenario_results
     = Ok (2 # 3)%Q.
Proof. repeat split; vm_compute; reflexivity. Qed.

(** ** Ties *)

Section Ties.
Context {F : Type} `{ScalarLaws F}.

Lemma py_max_from_const (c : F) (n i k : nat) :
  py_max_from i k c (replicate n c) = (k, c).
Proof.
  revert i. induction n as [|n IH]; intros i; simpl; [reflexivity|].
  unfold sgtb. rewrite sltb_irrefl. apply IH.
Qed.

(** [l.index(max(l))] of a constant vector is [0]. *)
Lemma index_of_max_const (c : F) (n : nat) :
  index_of_max (c :: replicate n c) = Ok O.
Proof.
  unfold index_of_max. simpl. rewrite py_max_from_const. reflexivity.
Qed.

Lemma np_argmax_from_const (c : F) (n i k : nat) :
  seqb c c = true -> np_argmax_from i k c (replicate n c) = k.
Proof.
  intros Hc. revert i. induction n as [|n IH]; intros i; simpl; [reflexivity|].
  rewrite (sleb_refl c Hc). simpl. apply IH.
Qed.

(** [np.argmax] of a constant vector is [0], also when the constant is a
    NaN. *)
Lemma np_argmax_const (c : F) (n : nat) :
  np_argmax (c :: replicate n c) = Ok O.
Proof.
  unfold np_argmax, is_nan. destruct (seqb c c) eqn:Hc; simpl; [|reflexivity].
  rewrite np_argmax_from_const by assumption. reflexivity.
Qed.

(** The softmax of two equal logits has two equal items, and so has the mean
    of such vectors. *)
Lemma softmax_pair (c : F) :
  softmax [c; c] = [sdiv (sexp c) (np_sum [sexp c; sexp c]);
                    sdiv (sexp c) (np_sum [sexp c; sexp c])].
Proof. reflexivity. Qed.

Lemma sum_rows_pairs (rows : list (list F)) (a : F) :
  Forall (fun r => exists p, r = [p; p]) rows ->
  exists s, fold_left (zip_with sadd) rows [a; a] = [s; s].
Proof.
  intros Hrows. revert a. induction Hrows as [|r rows [p ->] _ IH]; intros a; simpl.
  - exists a. reflexivity.
  - apply IH.
Qed.

Lemma softmax_vector_pairs (data : example F) :
  dict_values (logits data) <> [] ->
  Forall (fun l => exists c, l = [c; c]) (dict_values (logits data)) ->
  exists y, softmax_vector data = Ok (Some [y; y]).
Proof.
  intros Hne Hall. unfold softmax_vector.
  destruct (dict_values (logits data)) as [|l ls]; [congruence|].
  apply Forall_cons_1 in Hall as [[c ->] Hls]. simpl map.
  assert (Hrows : Forall (fun r : list F => exists p, r = [p; p]) (map softmax ls)).
  { apply Forall_map. eapply Forall_impl; [exact Hls|].
    intros l [c' ->]. rewrite softmax_pair. eauto. }
  rewrite softmax_pair. unfold np_mean_axis0.
  assert (Hlen : forallb (fun r : list F =>
                   Nat.eqb (length r)
                     (length [sdiv (sexp c) (np_sum [sexp c; sexp c]);
                              sdiv (sexp c) (np_sum [sexp c; sexp c])]))
                   (map softmax ls) = true).
  { apply forallb_forall. intros r Hr.
    rewrite Forall_forall in Hrows. destruct (Hrows r) as [p ->]; [|reflexivity].
    apply list_elem_of_In. exact Hr. }
  rewrite Hlen.
  destruct (sum_rows_pairs
              ([sdiv (sexp c) (np_sum [sexp c; sexp c]);
                sdiv (sexp c) (np_sum [sexp c; sexp c])] :: map softmax ls) szero)
    as [s Hs]; [constructor; eauto|].
  cbn [length replicate]. rewrite Hs.
  eexists. reflexivity.
Qed.

End Ties.

(** C6.  Every strategy that takes an argmax returns the first position of
    the maximum: when the combined score vector is [[c, c]], as [[0.3, 0.3]],
    the label is [0].  For [softmax_fusion], whose combined vector is a mean
    of probabilities, this is stated on the logits: when the logits of every
    expert are [[c, c]] the label is [0]. *)
Theorem argmax_tie_first_index {F : Type} `{ScalarLaws F}
    (c : F) (interaction_type : string) (weights : list F) (data : example F) :
  (interaction_type_vector interaction_type data = [c; c] ->
     interaction_type_label interaction_type data = Ok O)
  /\ (simple_average_vector data = [c; c] -> simple_average_label data = Ok O)
  /\ (weighted_vector weights data = Ok [c; c] ->
      weighted_average_label weights data = Ok O)
  /\ (max_vector data = Ok [c; c] -> max_fusion_label data = Ok O)
  /\ (dict_values (logits data) <> [] ->
      Forall (fun l => l = [c; c]) (dict_values (logits data)) ->
      softmax_fusion_label data = Ok O).
Proof.
  repeat apply conj.
  - intros Hv. unfold interaction_type_label. rewrite Hv.
    apply (index_of_max_const c 1).
  - intros Hv. unfold simple_average_label. rewrite Hv.
    apply (index_of_max_const c 1).
  - intros Hv. unfold weighted_average_label. rewrite Hv.
    apply (index_of_max_const c 1).
  - intros Hv. unfold max_fusion_label. rewrite Hv.
    apply (index_of_max_const c 1).
  - intros Hne Hall. unfold softmax_fusion_label.
    destruct (softmax_vector_pairs data Hne) as [y ->].
    + eapply Forall_impl; [exact Hall|]. intros l ->. eauto.
    + apply (np_argmax_const y 1).
Qed.

Lemma argmax_tie_first_index_witness :
  let S := float_scalar exp_series in
  let c := three_tenths in
  (interaction_type_vector "AS" tie_example = [c; c]
   /\ @interaction_type_label _ S "AS" tie_example = Ok O)
  /\ (@simple_average_vector _ S tie_example = [c; c]
      /\ @simple_average_label _ S tie_example = Ok O)
  /\ (@weighted_vector _ S [0.5; 0.5]%float tie_example = Ok [c; c]
      /\ @weighted_average_label _ S [0.5; 0.5]%float tie_example = Ok O)
  /\ (@max_vector _ S tie_example = Ok [c; c]
      /\ @max_fusion_label _ S tie_example = Ok O)
  /\ @softmax_fusion_label _ S tie_example = Ok O.
Proof.
  intros S c.
  destruct (@argmax_tie_first_index float S (float_laws exp_series)
              c "AS" [0.5; 0.5]%float tie_example)
    as (H1 & H2 & H3 & H4 & H5).
  assert (V1 : interaction_type_vector "AS" tie_example = [c; c])
    by (vm_compute; reflexivity).
  assert (V2 : @simple_average_vector _ S tie_example = [c; c])
    by (vm_compute; reflexivity).
  assert (V3 : @weighted_vector _ S [0.5; 0.5]%float tie_example = Ok [c; c])
    by (vm_compute; reflexivity).
  assert (V4 : @max_vector _ S tie_example = Ok [c; c])
    by (vm_compute; reflexivity).
  repeat apply conj; try assumption.
  - exact (H1 V1).
  - exact (H2 V2).
  - exact (H3 V3).
  - exact (H4 V4).
  - apply H5; [discriminate | forall_list ltac:(reflexivity)].
Defined.

(** ** Metrics with a zero denominator *)

Lemma ratio_zero (den : nat) : ratio 0 den = 0%Q.
Proof. reflexivity. Qed.

Lemma prf_divide_zero (den : nat) : prf_divide 0 den = 0%Q.
Proof. unfold prf_divide. destruct (Nat.eqb den 0); [reflexivity | apply ratio_zero]. Qed.

Lemma count_pairs_none (p : Z -> Z -> bool) (gths preds : list Z) :
  (forall t q, In (t, q) (combine gths preds) -> p t q = false) ->
  count_pairs p gths preds = O.
Proof.
  unfold count_pairs. induction (combine gths preds) as [|[t q] l IH]; intros Hp;
    [reflexivity|].
  simpl. rewrite (Hp t q) by (left; reflexivity).
  apply IH. intros t' q' Hin. apply Hp. right. exact Hin.
Qed.

Lemma true_positives_none (gths preds : list Z) :
  Forall (fun q => q <> 1) preds \/ Forall (fun t => t <> 1) gths ->
  true_positives gths preds = O.
Proof.
  intros Hno. apply count_pairs_none. intros t q Hin.
  destruct Hno as [Hp | Ht].
  - apply in_combine_r in Hin. rewrite Forall_forall in Hp.
    apply list_elem_of_In, Hp in Hin.
    destruct (Z.eqb_spec q 1); [contradiction|]. apply andb_false_r.
  - apply in_combine_l in Hin. rewrite Forall_forall in Ht.
    apply list_elem_of_In, Ht in Hin.
    destruct (Z.eqb_spec t 1); [contradiction|]. reflexivity.
Qed.

Lemma known_targets_Some (ts : list Z) (preds : list nat) :
  length ts = length preds -> known_targets (Some <$> ts) preds = Ok ts.
Proof.
  intros Hlen. unfold known_targets.
  rewrite (mapM_fmap_Some (fun t : option Z => t) Some ts) by reflexivity.
  rewrite Hlen, Nat.eqb_refl. reflexivity.
Qed.

(** Labels among [0] and [1] pass the checks of the binary scores. *)
Lemma check_binary_ok (gths preds : list Z) :
  Forall (fun z => z = 0 \/ z = 1) (gths ++ preds)%list ->
  check_binary gths preds = Ok tt.
Proof.
  intros Hbin. unfold check_binary.
  set (present := nodup Z.eq_dec (gths ++ preds)%list).
  assert (Hnd : List.NoDup present) by apply List.NoDup_nodup.
  assert (Hin : forall z, In z present -> z = 0 \/ z = 1).
  { intros z Hz. apply nodup_In in Hz. rewrite Forall_forall in Hbin.
    apply Hbin, list_elem_of_In, Hz. }
  assert (Hle : (length present <= 2)%nat).
  { apply (List.NoDup_incl_length (l' := [0; 1]) Hnd).
    intros z Hz. destruct (Hin z Hz) as [-> | ->]; simpl; auto. }
  destruct (Nat.ltb_spec 2 (length present)); [lia|].
  destruct (Nat.leb_spec 2 (length present)); [|reflexivity].
  destruct (existsb (Z.eqb 1) present) eqn:Hex; [reflexivity|].
  exfalso.
  assert (Hle1 : (length present <= 1)%nat).
  { apply (List.NoDup_incl_length (l' := [0]) Hnd).
    intros z Hz. destruct (Hin z Hz) as [-> | ->]; [left; reflexivity|].
    assert (existsb (Z.eqb 1) present = true) as Hex'.
    { apply existsb_exists. exists 1. split; [exact Hz | reflexivity]. }
    congruence. }
  lia.
Qed.

Lemma binary_score_ok (score : list Z -> list Z -> Q) (ts : list Z) (preds : list nat) :
  length ts = length preds ->
  Forall (fun t => t = 0 \/ t = 1) ts ->
  Forall (fun q => (q <= 1)%nat) preds ->
  binary_score score (Some <$> ts) preds = Ok (score ts (map Z.of_nat preds)).
Proof.
  intros Hlen Hts Hps. unfold binary_score.
  rewrite known_targets_Some by assumption. simpl.
  rewrite check_binary_ok; [reflexivity|].
  apply Forall_app. split; [exact Hts|].
  apply Forall_map. eapply Forall_impl; [exact Hps|].
  intros q Hq. simpl in *. lia.
Qed.

Lemma matches_all_wrong (n : nat) :
  matches (replicate n 1) (map Z.of_nat (replicate n O)) = O.
Proof.
  apply count_pairs_none. intros t q Hin.
  pose proof (in_combine_l _ _ _ _ Hin) as Ht.
  pose proof (in_combine_r _ _ _ _ Hin) as Hq.
  apply list_elem_of_In, elem_of_replicate in Ht as [-> _].
  apply in_map_iff in Hq as (q0 & <- & Hq0).
  apply list_elem_of_In, elem_of_replicate in Hq0 as [-> _].
  reflexivity.
Qed.

(** The accuracy of [sarc_fusion.py] divides by the number of examples, and
    raises on an empty map. *)
Lemma sarc_accuracy_empty {F : Type} (label : example F -> result nat) :
  sarc_accuracy label [] = Raise ZeroDivisionError.
Proof. reflexivity. Qed.

(** C7.  Binary labels, positive class [1]: when no label is predicted
    positive, or no target is positive, [evaluate] returns, without raising,
    a precision, a recall and an f1 equal to [0].  In particular, when every
    prediction is [0] and every target is [1], the accuracy is [0] as
    well. *)
Theorem metrics_zero_division (ts : list Z) (preds : list nat) (n : nat) :
  (length ts = length preds ->
   Forall (fun t => t = 0 \/ t = 1) ts ->
   Forall (fun q => (q <= 1)%nat) preds ->
   Forall (fun q => q <> 1%nat) preds \/ Forall (fun t => t <> 1) ts ->
   exists a, evaluate (Some <$> ts) preds = Ok (Metrics 0 0 0 a))
  /\ evaluate (replicate (S n) (Some 1)) (replicate (S n) O)
     = Ok (Metrics 0 0 0 (Some 0%Q)).
Proof.
  assert (Hgen : forall (ts : list Z) (preds : list nat),
    length ts = length preds ->
    Forall (fun t => t = 0 \/ t = 1) ts ->
    Forall (fun q => (q <= 1)%nat) preds ->
    Forall (fun q => q <> 1%nat) preds \/ Forall (fun t => t <> 1) ts ->
    evaluate (Some <$> ts) preds
    = Ok (Metrics 0 0 0
            (match ts with
             | [] => None
             | _ => Some (ratio (matches ts (map Z.of_nat preds)) (length ts))
             end))).
  { clear. intros ts preds Hlen Hts Hps Hno.
    assert (Htp : true_positives ts (map Z.of_nat preds) = O).
    { apply true_positives_none. destruct Hno as [Hp | Ht]; [left | right; exact Ht].
      apply Forall_map. eapply Forall_impl; [exact Hp|]. intros q Hq. simpl in *. lia. }
    unfold evaluate, f1_score, precision_score, recall_score, accuracy_score.
    rewrite !binary_score_ok by assumption.
    rewrite known_targets_Some by assumption. simpl.
    rewrite Htp. simpl. rewrite !prf_divide_zero. reflexivity. }
  split.
  - intros Hlen Hts Hps Hno. eexists. apply Hgen; assumption.
  - rewrite <- (fmap_replicate Some (S n) 1).
    rewrite Hgen.
    + simpl. do 4 f_equal.
      change (1 :: replicate n 1) with (replicate (S n) 1).
      change (O :: replicate n O) with (replicate (S n) O).
      rewrite matches_all_wrong. apply ratio_zero.
    + rewrite !length_replicate. reflexivity.
    + apply Forall_replicate. right. reflexivity.
    + apply Forall_replicate. lia.
    + left. apply Forall_replicate. lia.
Qed.

Lemma metrics_zero_division_witness :
  (exists a, evaluate [Some 0; Some 0; Some 1] [O; O; O] = Ok (Metrics 0 0 0 a))
  /\ evaluate [Some 1; Some 1] [O; O] = Ok (Metrics 0 0 0 (Some 0%Q)).
Proof.
  destruct (metrics_zero_division [0; 0; 1] [O; O; O] 1) as [Hgen Hall].
  split; [|exact Hall].
  apply Hgen.
  - reflexivity.
  - forall_list ltac:(auto).
  - forall_list ltac:(lia).
  - left. forall_list ltac:(lia).
Defined.

(** ** The softmax at large logits *)

(** In exact arithmetic the softmax of two equal logits is [[1/2, 1/2]]. *)
Lemma softmax_real_pair (c : R) :
  @softmax R real_scalar [c; c] = [(1 / 2)%R; (1 / 2)%R].
Proof.
  unfold softmax, np_sum. simpl. pose proof (exp_pos c) as Hpos.
  assert (E : (exp c / (0 + exp c + exp c) = 1 / 2)%R) by (field; lra).
  rewrite E. reflexivity.
Qed.

(** C3, as the code has it.  The softmax is [exp(x) / sum(exp(x))], with no
    maximum subtracted.  On binary64, where the exponential of [1000]
    overflows to [+infinity], the probability vector of an example whose
    only expert has logits [[1000, 1000]] is [[nan, nan]]: the sum is
    [infinity] and [infinity / infinity] is a NaN.  Nothing is raised, the
    mean is [[nan, nan]] and [softmax_fusion] labels the example [0]. *)
Theorem softmax_overflow (np_exp : float -> float) :
  np_exp 1000%float = infinity ->
  @softmax _ (float_scalar np_exp) [1000; 1000]%float = [nan; nan]
  /\ @softmax_vector _ (float_scalar np_exp) overflow_example = Ok (Some [nan; nan])
  /\ @softmax_fusion_label _ (float_scalar np_exp) overflow_example = Ok O.
Proof.
  intros Hexp.
  assert (Hsm : @softmax _ (float_scalar np_exp) [1000; 1000]%float = [nan; nan]).
  { unfold softmax. simpl. rewrite Hexp. vm_compute. reflexivity. }
  assert (Hvec : @softmax_vector _ (float_scalar np_exp) overflow_example
                 = Ok (Some [nan; nan])).
  { unfold softmax_vector, overflow_example. simpl dict_values. simpl map.
    rewrite Hsm. vm_compute. reflexivity. }
  split; [exact Hsm|]. split; [exact Hvec|].
  unfold softmax_fusion_label. rewrite Hvec. vm_compute. reflexivity.
Qed.

Lemma softmax_overflow_witness :
  exp_series 1000%float = infinity
  /\ @softmax _ (float_scalar exp_series) [1000; 1000]%float = [nan; nan].
Proof.
  split; [vm_compute; reflexivity|].
  apply (softmax_overflow exp_series). vm_compute. reflexivity.
Defined.

(** The vector computed for [[1000, 1000]] is not [[0.5, 0.5]], within any
    tolerance: its items are NaNs, which compare with nothing. *)
Lemma softmax_stability_counterexample :
  @softmax _ (float_scalar exp_series) [1000; 1000]%float = [nan; nan]
  /\ Forall (fun p => (abs (p - 0.5) <=? 0x1p-20)%float = false)
       (@softmax _ (float_scalar exp_series) [1000; 1000]%float)
  /\ map exp_series [1000; 1000]%float = [infinity; infinity]
  /\ @softmax _ (float_scalar exp_series) [1000; 1000]%float <> [0.5; 0.5]%float.
Proof.
  assert (Hsm : @softmax _ (float_scalar exp_series) [1000; 1000]%float = [nan; nan])
    by (vm_compute; reflexivity).
  repeat apply conj.
  - exact Hsm.
  - forall_list ltac:(vm_compute; reflexivity).
  - vm_compute. reflexivity.
  - rewrite Hsm. intros Heq.
    apply (f_equal (fun l => match l with
                             | x :: _ => PrimFloat.eqb x x
                             | [] => false
                             end)) in Heq.
    vm_compute in Heq. discriminate.
Qed.

(** ** Dictionaries *)

Section Dict.
Context {V : Type}.
Implicit Types (d : pydict V) (k : string) (v : V).

Lemma dict_get_set_eq d k v : dict_get k (dict_set k v d) = Some v.
Proof.
  induction d as [|[k' v'] d IH]; simpl.
  - rewrite String.eqb_refl. reflexivity.
  - destruct (String.eqb_spec k k') as [->|Hne]; simpl.
    + rewrite String.eqb_refl. reflexivity.
    + destruct (String.eqb_spec k k'); [contradiction | exact IH].
Qed.

Lemma dict_get_set_ne d k k' v :
  k <> k' -> dict_get k' (dict_set k v d) = dict_get k' d.
Proof.
  intros Hne. induction d as [|[k0 v0] d IH]; simpl.
  - destruct (String.eqb_spec k' k); [congruence | reflexivity].
  - destruct (String.eqb_spec k k0) as [->|Hne0]; simpl.
    + destruct (String.eqb_spec k' k0); [congruence | reflexivity].
    + destruct (String.eqb_spec k' k0); [reflexivity | exact IH].
Qed.

Lemma dict_get_absent d k : ~ In k (dict_keys d) -> dict_get k d = None.
Proof.
  induction d as [|[k' v'] d IH]; simpl; intros Hnin; [reflexivity|].
  destruct (String.eqb_spec k k') as [->|Hne]; [tauto|].
  apply IH. tauto.
Qed.

Lemma dict_get_present d k : In k (dict_keys d) -> exists v, dict_get k d = Some v.
Proof.
  induction d as [|[k' v'] d IH]; simpl; [tauto|].
  destruct (String.eqb_spec k k') as [->|Hne]; [eauto|].
  intros [Heq|Hin]; [congruence | auto].
Qed.

(** The keys after an assignment: the same, or one more at the end. *)
Lemma dict_keys_set d k v :
  dict_keys (dict_set k v d)
  = match dict_get k d with
    | Some _ => dict_keys d
    | None => (dict_keys d ++ [k])%list
    end.
Proof.
  induction d as [|[k' v'] d IH]; simpl; [reflexivity|].
  destruct (String.eqb_spec k k') as [->|Hne]; simpl; [reflexivity|].
  rewrite IH. destruct (dict_get k d); reflexivity.
Qed.

Lemma dict_set_NoDup d k v :
  NoDup (dict_keys d) -> NoDup (dict_keys (dict_set k v d)).
Proof.
  intros Hnd. rewrite dict_keys_set. destruct (dict_get k d) eqn:Hget; [exact Hnd|].
  apply NoDup_app. split; [exact Hnd|]. split; [|apply NoDup_singleton].
  intros k' Hin Hk. apply list_elem_of_singleton in Hk. subst k'.
  apply list_elem_of_In, dict_get_present in Hin as [v' Hv']. congruence.
Qed.

(** The contents of a dictionary as a finite map. *)
Lemma list_to_map_dict_set d k v :
  (list_to_map (dict_set k v d) : gmap string V) = <[k := v]> (list_to_map d).
Proof.
  induction d as [|[k' v'] d IH]; simpl; [reflexivity|].
  destruct (String.eqb_spec k k') as [->|Hne]; simpl.
  - rewrite insert_insert_eq. reflexivity.
  - rewrite IH. apply insert_insert_ne. congruence.
Qed.

Lemma list_to_map_dict_get d k :
  (list_to_map d : gmap string V) !! k = dict_get k d.
Proof.
  induction d as [|[k' v'] d IH]; simpl; [apply lookup_empty|].
  destruct (String.eqb_spec k k') as [->|Hne].
  - apply lookup_insert_eq.
  - rewrite lookup_insert_ne by congruence. exact IH.
Qed.

End Dict.

(** ** The cascade *)

Section Cascade.
Context {F : Type} `{ScalarLaws F}.

Lemma store_softmax_fold (l : pydict (list F)) (sp : pydict (list F)) (k : string) :
  NoDup (dict_keys l) ->
  dict_get k (fold_left (fun sp kv => dict_set (fst kv) (softmax (snd kv)) sp) l sp)
  = match dict_get k l with
    | Some v => Some (softmax v)
    | None => dict_get k sp
    end.
Proof.
  revert sp. induction l as [|[k0 v0] l IH]; intros sp Hnd; simpl; [reflexivity|].
  apply NoDup_cons in Hnd as [Hnin Hnd].
  rewrite IH by exact Hnd.
  destruct (String.eqb_spec k k0) as [->|Hne].
  - rewrite dict_get_absent, dict_get_set_eq; [reflexivity|].
    intros Hin. apply Hnin, list_elem_of_In, Hin.
  - destruct (dict_get k l); [reflexivity|].
    apply dict_get_set_ne. congruence.
Qed.

(** After the inner loop, an expert of the example holds the softmax of its
    logits; any other entry is what it was before the example. *)
Lemma store_softmax_get (data : example F) (sp : pydict (list F)) (k : string) :
  NoDup (dict_keys (logits data)) ->
  dict_get k (store_softmax data sp)
  = match dict_get k (logits data) with
    | Some v => Some (softmax v)
    | None => dict_get k sp
    end.
Proof. apply store_softmax_fold. Qed.

Lemma softmax_nonempty (l : list F) : l <> [] -> softmax l <> [].
Proof. destruct l; [congruence | discriminate]. Qed.

Lemma np_max_nonempty (a : list F) : a <> [] -> exists m, np_max a = Ok m.
Proof. destruct a; [congruence | simpl; eauto]. Qed.

Lemma np_argmax_nonempty (a : list F) : a <> [] -> exists i, np_argmax a = Ok i.
Proof. destruct a; [congruence | simpl; eauto]. Qed.

(** The decision, once the three entries and the two maxima are known. *)
Lemma cascaded_decision_eq (t : F) (sp : pydict (list F)) (pr pu pas : list F)
    (max_r max_u : F) :
  dict_get "R" sp = Some pr -> dict_get "U" sp = Some pu ->
  dict_get "AS" sp = Some pas ->
  np_max pr = Ok max_r -> np_max pu = Ok max_u ->
  cascaded_decision t sp
  = if sgtb max_r t && sgtb max_u t
    then (if sgtb max_r max_u then np_argmax pr else np_argmax pu)
    else np_argmax pas.
Proof.
  intros HR HU HAS Hmr Hmu. unfold cascaded_decision, dict_item.
  rewrite HR, HU, HAS. simpl. rewrite Hmr. simpl.
  destruct (sgtb max_r t); simpl; [|reflexivity].
  rewrite Hmu. simpl.
  destruct (sgtb max_u t); simpl; [|reflexivity].
  destruct (sgtb max_r max_u); reflexivity.
Qed.

(** C1.  In both scripts, for an example that holds the experts [R], [U]
    and [AS] (with logits that are not empty), whatever the examples
    scored before it left in [softmaxed_probs]: the step of
    [cascaded_fusion] returns and records a label, [sarc_fusion.py] computes
    the same label, and the label follows the rule of the cascade. *)
Theorem cascaded_follows_rule (t : F) (kv : string * example F)
    (st : pydict (list F) * (list (option Z) * list nat)) (lr lu las : list F) :
  NoDup (dict_keys (logits (snd kv))) ->
  dict_get "R" (logits (snd kv)) = Some lr ->
  dict_get "U" (logits (snd kv)) = Some lu ->
  dict_get "AS" (logits (snd kv)) = Some las ->
  lr <> [] -> lu <> [] -> las <> [] ->
  exists label,
    cascaded_body t kv st
      = Ok (store_softmax (snd kv) (fst st),
            (fst (snd st) ++ [target (snd kv)], snd (snd st) ++ [label])%list)
    /\ sarc_cascaded_label t (snd kv) = Ok label
    /\ cascade_rule t lr lu las label.
Proof.
  intros Hnd HR HU HAS Hr Hu Has.
  destruct (np_max_nonempty (softmax lr) (softmax_nonempty lr Hr)) as [max_r Hmr].
  destruct (np_max_nonempty (softmax lu) (softmax_nonempty lu Hu)) as [max_u Hmu].
  destruct (np_argmax_nonempty (softmax lr) (softmax_nonempty lr Hr)) as [ir Hir].
  destruct (np_argmax_nonempty (softmax lu) (softmax_nonempty lu Hu)) as [iu Hiu].
  destruct (np_argmax_nonempty (softmax las) (softmax_nonempty las Has)) as [ias Hias].
  assert (Hdec : forall sp,
    cascaded_decision t (store_softmax (snd kv) sp)
    = if sgtb max_r t && sgtb max_u t
      then (if sgtb max_r max_u then Ok ir else Ok iu)
      else Ok ias).
  { intros sp.
    rewrite (cascaded_decision_eq t _ (softmax lr) (softmax lu) (softmax las) max_r max_u);
      try assumption.
    - rewrite Hir, Hiu, Hias. reflexivity.
    - rewrite store_softmax_get, HR by exact Hnd. reflexivity.
    - rewrite store_softmax_get, HU by exact Hnd. reflexivity.
    - rewrite store_softmax_get, HAS by exact Hnd. reflexivity. }
  set (label := if sgtb max_r t && sgtb max_u t
                then (if sgtb max_r max_u then ir else iu) else ias).
  assert (Hlabel : forall sp, cascaded_decision t (store_softmax (snd kv) sp) = Ok label).
  { intros sp. rewrite Hdec. unfold label.
    destruct (sgtb max_r t && sgtb max_u t), (sgtb max_r max_u); reflexivity. }
  exists label. split; [|split].
  - unfold cascaded_body. rewrite Hlabel. reflexivity.
  - unfold sarc_cascaded_label. apply Hlabel.
  - exists max_r, max_u. split; [exact Hmr|]. split; [exact Hmu|]. split.
    + intros [Hrt Hut]. unfold label. rewrite Hrt, Hut. simpl.
      split; [|split].
      * intros ->. exact Hir.
      * intros Hgt. unfold sgtb in *. rewrite (sltb_asym _ _ Hgt). exact Hiu.
      * intros ->. exact Hiu.
    + intros Hnot. unfold label.
      destruct (sgtb max_r t), (sgtb max_u t); simpl; try exact Hias.
      exfalso. apply Hnot. split; reflexivity.
Qed.

End Cascade.

Lemma cascaded_follows_rule_witness :
  let S := float_scalar exp_series in
  exists label,
    @cascaded_body _ S 0.5%float ("7_wow", confident_example) ([], ([], []))
      = Ok (@store_softmax _ S confident_example [], ([Some 0], [label]))
    /\ @sarc_cascaded_label _ S 0.5%float confident_example = Ok label
    /\ @cascade_rule _ S 0.5%float [3; 0]%float [0; 2]%float [0; 1]%float label.
Proof.
  intros S.
  apply (@cascaded_follows_rule float S (float_laws exp_series) 0.5%float
           ("7_wow", confident_example) ([], ([], []))
           [3; 0]%float [0; 2]%float [0; 1]%float).
  - apply (bool_decide_unpack _). vm_compute. exact I.
  - reflexivity.
  - reflexivity.
  - reflexivity.
  - discriminate.
  - discriminate.
  - discriminate.
Defined.

(** ** The cascade in exact arithmetic *)

Section Fallback.
Context {F : Type} `{ScalarLaws F}.

(** When [R] or [U] does not exceed the threshold the label is that of
    [AS]. *)
Lemma cascade_falls_back (t : F) (data : example F) (sp : pydict (list F))
    (lr lu las : list F) (max_r max_u : F) :
  NoDup (dict_keys (logits data)) ->
  dict_get "R" (logits data) = Some lr ->
  dict_get "U" (logits data) = Some lu ->
  dict_get "AS" (logits data) = Some las ->
  np_max (softmax lr) = Ok max_r -> np_max (softmax lu) = Ok max_u ->
  sgtb max_r t && sgtb max_u t = false ->
  cascaded_decision t (store_softmax data sp) = np_argmax (softmax las).
Proof.
  intros Hnd HR HU HAS Hmr Hmu Hlow.
  rewrite (cascaded_decision_eq t _ (softmax lr) (softmax lu) (softmax las) max_r max_u);
    try assumption.
  - rewrite Hlow. reflexivity.
  - rewrite store_softmax_get, HR by exact Hnd. reflexivity.
  - rewrite store_softmax_get, HU by exact Hnd. reflexivity.
  - rewrite store_softmax_get, HAS by exact Hnd. reflexivity.
Qed.

End Fallback.

#[local] Existing Instance real_scalar.

Lemma softmax_real_two (x y : R) :
  @softmax R real_scalar [x; y]
  = [(exp x / (exp x + exp y))%R; (exp y / (exp x + exp y))%R].
Proof. unfold softmax, np_sum. simpl. rewrite Rplus_0_l. reflexivity. Qed.

Lemma is_nan_real (x : R) : @is_nan R real_scalar x = false.
Proof.
  unfold is_nan. simpl. replace (Reqb x x) with true; [reflexivity|].
  symmetry. apply Reqb_true. reflexivity.
Qed.

Lemma np_max_real_two (a b : R) : @np_max R real_scalar [a; b] = Ok (Rmax a b).
Proof.
  unfold np_max, np_maximum. simpl. rewrite is_nan_real, orb_false_r.
  f_equal. unfold Rleb, Rmax.
  destruct (Rle_dec b a), (Rle_dec a b); try reflexivity; lra.
Qed.

Lemma np_argmax_real_two (a b : R) :
  @np_argmax R real_scalar [a; b] = Ok (if Rleb b a then O else 1%nat).
Proof.
  unfold np_argmax. rewrite is_nan_real. simpl. rewrite is_nan_real.
  destruct (Rleb b a); reflexivity.
Qed.

(** The probabilities of the logits [[ln a, 0]], [[0, ln a]] and [[0, 0]]. *)
Lemma softmax_ln_zero (a : R) :
  (0 < a)%R ->
  @softmax R real_scalar [ln a; 0%R] = [(a / (a + 1))%R; (1 / (a + 1))%R].
Proof. intros Ha. rewrite softmax_real_two, exp_ln, exp_0 by exact Ha. reflexivity. Qed.

Lemma softmax_zero_ln (a : R) :
  (0 < a)%R ->
  @softmax R real_scalar [0%R; ln a] = [(1 / (1 + a))%R; (a / (1 + a))%R].
Proof. intros Ha. rewrite softmax_real_two, exp_ln, exp_0 by exact Ha. reflexivity. Qed.

Lemma Rleb_false (x y : R) : (y < x)%R -> Rleb x y = false.
Proof. intros Hlt. unfold Rleb. destruct (Rle_dec x y); [lra | reflexivity]. Qed.

Lemma Rltb_false (x y : R) : (y <= x)%R -> Rltb x y = false.
Proof. intros Hle. unfold Rltb. destruct (Rlt_dec x y); [lra | reflexivity]. Qed.

Lemma boundary_max_R :
  @np_max R real_scalar (@softmax R real_scalar [ln (81 / 19); 0%R]) = Ok 0.81%R.
Proof.
  rewrite softmax_ln_zero by lra. rewrite np_max_real_two. f_equal.
  unfold Rmax. destruct (Rle_dec _ _); lra.
Qed.

Lemma boundary_max_U :
  @np_max R real_scalar (@softmax R real_scalar [0%R; 0%R]) = Ok 0.5%R.
Proof.
  rewrite softmax_real_pair, np_max_real_two. f_equal.
  unfold Rmax. destruct (Rle_dec _ _); lra.
Qed.

Lemma boundary_argmax_AS :
  @np_argmax R real_scalar (@softmax R real_scalar [0%R; ln 3]) = Ok 1%nat.
Proof.
  rewrite softmax_zero_ln by lra. rewrite np_argmax_real_two.
  rewrite Rleb_false by lra. reflexivity.
Qed.

Lemma boundary_argmax_R :
  @np_argmax R real_scalar (@softmax R real_scalar [ln (81 / 19); 0%R]) = Ok O.
Proof.
  rewrite softmax_ln_zero by lra. rewrite np_argmax_real_two.
  replace (Rleb _ _) with true; [reflexivity|].
  symmetry. apply Rleb_true. lra.
Qed.

Lemma boundary_keys : NoDup (dict_keys (logits boundary_example)).
Proof. apply (bool_decide_unpack _). vm_compute. exact I. Qed.

(** C2, as the code has it.  In exact arithmetic, with the threshold [0.8]:
    for an example whose expert [R] has the greatest probability [0.81] and
    whose expert [U] has the greatest probability [0.5], the label of
    [cascaded_fusion] is the argmax of the probabilities of [AS], in both
    scripts: the experts [R] and [U] are followed only when both exceed the
    threshold, and [0.5] does not. *)
Theorem cascade_boundary_goes_to_AS (kv : string * example R)
    (st : pydict (list R) * (list (option Z) * list nat)) (lr lu las : list R) :
  NoDup (dict_keys (logits (snd kv))) ->
  dict_get "R" (logits (snd kv)) = Some lr ->
  dict_get "U" (logits (snd kv)) = Some lu ->
  dict_get "AS" (logits (snd kv)) = Some las ->
  @np_max R real_scalar (@softmax R real_scalar lr) = Ok 0.81%R ->
  @np_max R real_scalar (@softmax R real_scalar lu) = Ok 0.5%R ->
  las <> [] ->
  exists label,
    @cascaded_body R real_scalar 0.8%R kv st
      = Ok (@store_softmax R real_scalar (snd kv) (fst st),
            (fst (snd st) ++ [target (snd kv)], snd (snd st) ++ [label])%list)
    /\ @sarc_cascaded_label R real_scalar 0.8%R (snd kv) = Ok label
    /\ @np_argmax R real_scalar (@softmax R real_scalar las) = Ok label.
Proof.
  intros Hnd HR HU HAS Hmr Hmu Has.
  destruct (np_argmax_nonempty (softmax las) (softmax_nonempty las Has)) as [label Hlabel].
  assert (Hdec : forall sp,
    @cascaded_decision R real_scalar 0.8%R (@store_softmax R real_scalar (snd kv) sp)
    = Ok label).
  { intros sp. rewrite <- Hlabel.
    apply (cascade_falls_back _ _ _ lr lu las 0.81%R 0.5%R); try assumption.
    apply andb_false_intro2. unfold sgtb. simpl. apply Rltb_false. lra. }
  exists label. split; [|split].
  - unfold cascaded_body. rewrite Hdec. reflexivity.
  - unfold sarc_cascaded_label. apply Hdec.
  - exact Hlabel.
Qed.

(** The same on binary64, whatever the exponential: [0.5 > 0.8] is false. *)
Lemma cascade_boundary_binary64 (np_exp : float -> float) (data : example float)
    (sp : pydict (list float)) (lr lu las : list float) (max_r : float) :
  NoDup (dict_keys (logits data)) ->
  dict_get "R" (logits data) = Some lr ->
  dict_get "U" (logits data) = Some lu ->
  dict_get "AS" (logits data) = Some las ->
  @np_max _ (float_scalar np_exp) (@softmax _ (float_scalar np_exp) lr) = Ok max_r ->
  @np_max _ (float_scalar np_exp) (@softmax _ (float_scalar np_exp) lu) = Ok 0.5%float ->
  @cascaded_decision _ (float_scalar np_exp) 0x1.999999999999ap-1%float
    (@store_softmax _ (float_scalar np_exp) data sp)
  = @np_argmax _ (float_scalar np_exp) (@softmax _ (float_scalar np_exp) las).
Proof.
  intros Hnd HR HU HAS Hmr Hmu.
  apply (@cascade_falls_back float (float_scalar np_exp) _ _ _ lr lu las max_r 0.5%float);
    try assumption.
  apply andb_false_intro2. vm_compute. reflexivity.
Qed.

Lemma cascade_boundary_goes_to_AS_witness :
  exists label,
    @cascaded_body R real_scalar 0.8%R ("7_wow", boundary_example) ([], ([], []))
      = Ok (@store_softmax R real_scalar boundary_example [], ([Some 1], [label]))
    /\ @sarc_cascaded_label R real_scalar 0.8%R boundary_example = Ok label
    /\ @np_argmax R real_scalar (@softmax R real_scalar [0%R; ln 3]) = Ok label.
Proof.
  apply (cascade_boundary_goes_to_AS ("7_wow", boundary_example) ([], ([], []))
           [ln (81 / 19); 0%R] [0%R; 0%R] [0%R; ln 3]).
  - exact boundary_keys.
  - reflexivity.
  - reflexivity.
  - reflexivity.
  - exact boundary_max_R.
  - exact boundary_max_U.
  - discriminate.
Defined.

(** With [R] at [0.81], [U] at [0.5] and the threshold [0.8], the label is
    [1], the argmax of [AS], where the argmax of [R] is [0]. *)
Lemma cascade_boundary_counterexample :
  @np_max R real_scalar (@softmax R real_scalar [ln (81 / 19); 0%R]) = Ok 0.81%R
  /\ @np_max R real_scalar (@softmax R real_scalar [0%R; 0%R]) = Ok 0.5%R
  /\ @np_argmax R real_scalar (@softmax R real_scalar [ln (81 / 19); 0%R]) = Ok O
  /\ @np_argmax R real_scalar (@softmax R real_scalar [0%R; ln 3]) = Ok 1%nat
  /\ @cascaded_scores R real_scalar [("7_wow", boundary_example)] 0.8%R
     = Ok ([Some 1], [1%nat])
  /\ @sarc_cascaded_label R real_scalar 0.8%R boundary_example = Ok 1%nat
  /\ @sarc_cascaded_label R real_scalar 0.8%R boundary_example
     <> @np_argmax R real_scalar (@softmax R real_scalar [ln (81 / 19); 0%R]).
Proof.
  assert (Hdec : forall sp,
    @cascaded_decision R real_scalar 0.8%R (@store_softmax R real_scalar boundary_example sp)
    = Ok 1%nat).
  { intros sp. rewrite <- boundary_argmax_AS.
    apply (cascade_falls_back _ _ _ [ln (81 / 19); 0%R] [0%R; 0%R] [0%R; ln 3]
             0.81%R 0.5%R);
      try reflexivity.
    - exact boundary_keys.
    - exact boundary_max_R.
    - exact boundary_max_U.
    - apply andb_false_intro2. unfold sgtb. simpl. apply Rltb_false. lra. }
  repeat apply conj.
  - exact boundary_max_R.
  - exact boundary_max_U.
  - exact boundary_argmax_R.
  - exact boundary_argmax_AS.
  - unfold cascaded_scores. cbn [for_each]. unfold cascaded_body. cbn [fst snd].
    rewrite Hdec. reflexivity.
  - unfold sarc_cascaded_label. apply Hdec.
  - unfold sarc_cascaded_label. rewrite Hdec, boundary_argmax_R. discriminate.
Qed.

(** ** The state that [cascaded_fusion] keeps between examples *)

Lemma cascaded_decision_no_R {F : Type} `{Scalar F} (t : F) (sp : pydict (list F)) :
  dict_get "R" sp = None -> cascaded_decision t sp = Raise (KeyError "R").
Proof. intros HR. unfold cascaded_decision, dict_item. rewrite HR. reflexivity. Qed.

Lemma max_three_quarters :
  @np_max R real_scalar (@softmax R real_scalar [ln 3; 0%R]) = Ok 0.75%R.
Proof.
  rewrite softmax_ln_zero by lra. rewrite np_max_real_two. f_equal.
  unfold Rmax. destruct (Rle_dec _ _); lra.
Qed.

Lemma argmax_three_quarters :
  @np_argmax R real_scalar (@softmax R real_scalar [ln 3; 0%R]) = Ok O.
Proof.
  rewrite softmax_ln_zero by lra. rewrite np_argmax_real_two.
  replace (Rleb _ _) with true; [reflexivity|].
  symmetry. apply Rleb_true. lra.
Qed.

Lemma argmax_halves :
  @np_argmax R real_scalar (@softmax R real_scalar [0%R; 0%R]) = Ok O.
Proof. rewrite softmax_real_pair. apply (np_argmax_const (1 / 2)%R 1). Qed.

Lemma partial_keys : NoDup (dict_keys (logits partial_example)).
Proof. apply (bool_decide_unpack _). vm_compute. exact I. Qed.

Lemma confident_keys : NoDup (dict_keys (logits confident_first)).
Proof. apply (bool_decide_unpack _). vm_compute. exact I. Qed.

Lemma hesitant_keys : NoDup (dict_keys (logits hesitant_first)).
Proof. apply (bool_decide_unpack _). vm_compute. exact I. Qed.

(** The entries of [softmaxed_probs] while the three examples are scored. *)
Ltac stored_entry :=
  repeat first [ rewrite store_softmax_get by exact partial_keys
               | rewrite store_softmax_get by exact confident_keys
               | rewrite store_softmax_get by exact hesitant_keys ];
  reflexivity.

Lemma decision_confident_first (sp : pydict (list R)) :
  @cascaded_decision R real_scalar 0.5%R (store_softmax confident_first sp) = Ok O.
Proof.
  rewrite (cascaded_decision_eq _ _ (softmax [ln 3; 0%R]) (softmax [ln 3; 0%R])
             (softmax [0%R; 0%R]) 0.75%R 0.75%R);
    [ | stored_entry | stored_entry | stored_entry
      | exact max_three_quarters | exact max_three_quarters ].
  unfold sgtb. simpl sltb.
  replace (Rltb 0.5 0.75) with true by (symmetry; apply Rltb_true; lra).
  rewrite Rltb_false by lra. simpl. exact argmax_three_quarters.
Qed.

Lemma decision_hesitant_first (sp : pydict (list R)) :
  @cascaded_decision R real_scalar 0.5%R (store_softmax hesitant_first sp) = Ok O.
Proof.
  rewrite (cascaded_decision_eq _ _ (softmax [0%R; 0%R]) (softmax [0%R; 0%R])
             (softmax [0%R; 0%R]) 0.5%R 0.5%R);
    [ | stored_entry | stored_entry | stored_entry
      | exact boundary_max_U | exact boundary_max_U ].
  unfold sgtb. simpl sltb. rewrite Rltb_false by lra. simpl. exact argmax_halves.
Qed.

Lemma decision_partial_after_confident (sp : pydict (list R)) :
  @cascaded_decision R real_scalar 0.5%R
    (store_softmax partial_example (store_softmax confident_first sp)) = Ok O.
Proof.
  rewrite (cascaded_decision_eq _ _ (softmax [ln 3; 0%R]) (softmax [ln 3; 0%R])
             (softmax [0%R; ln 3]) 0.75%R 0.75%R);
    [ | stored_entry | stored_entry | stored_entry
      | exact max_three_quarters | exact max_three_quarters ].
  unfold sgtb. simpl sltb.
  replace (Rltb 0.5 0.75) with true by (symmetry; apply Rltb_true; lra).
  rewrite Rltb_false by lra. simpl. exact argmax_three_quarters.
Qed.

Lemma decision_partial_after_hesitant (sp : pydict (list R)) :
  @cascaded_decision R real_scalar 0.5%R
    (store_softmax partial_example (store_softmax hesitant_first sp)) = Ok 1%nat.
Proof.
  rewrite (cascaded_decision_eq _ _ (softmax [0%R; 0%R]) (softmax [ln 3; 0%R])
             (softmax [0%R; ln 3]) 0.5%R 0.75%R);
    [ | stored_entry | stored_entry | stored_entry
      | exact boundary_max_U | exact max_three_quarters ].
  unfold sgtb. simpl sltb. rewrite Rltb_false by lra. simpl. exact boundary_argmax_AS.
Qed.

Lemma decision_partial_alone :
  @cascaded_decision R real_scalar 0.5%R (store_softmax partial_example [])
  = Raise (KeyError "R").
Proof. apply cascaded_decision_no_R. stored_entry. Qed.


(** C10, which [cascaded_fusion] of [mustard_fusion.py] does not meet.  The
    example ["2_b"], which has no expert [R], is labelled [0] after an
    example whose expert [R] was confident and [1] after an example whose
    expert [R] was not: the decision reads the probabilities that the
    previous example left under ["R"].  Alone, the same example makes the
    run raise [KeyError], as it does in [sarc_fusion.py], where
    [softmaxed_probs] is created for each example.  The same happens on
    binary64. *)
Theorem cascaded_fusion_keeps_state :
  @cascaded_scores R real_scalar
      [("1_a", confident_first); ("2_b", partial_example)] 0.5%R
    = Ok ([Some 0; Some 1], [O; O])
  /\ @cascaded_scores R real_scalar
      [("1_a", hesitant_first); ("2_b", partial_example)] 0.5%R
    = Ok ([Some 0; Some 1], [O; 1%nat])
  /\ @cascaded_scores R real_scalar [("2_b", partial_example)] 0.5%R
    = Raise (KeyError "R")
  /\ @sarc_cascaded_label R real_scalar 0.5%R partial_example = Raise (KeyError "R")
  /\ @cascaded_scores float (float_scalar exp_series)
      [("1_a", confident_first64); ("2_b", partial_example64)] 0.5%float
    = Ok ([Some 0; Some 1], [O; O])
  /\ @cascaded_scores float (float_scalar exp_series)
      [("1_a", hesitant_first64); ("2_b", partial_example64)] 0.5%float
    = Ok ([Some 0; Some 1], [O; 1%nat])
  /\ @sarc_cascaded_label float (float_scalar exp_series) 0.5%float partial_example64
    = Raise (KeyError "R").
Proof.
  repeat apply conj.
  - unfold cascaded_scores. cbn [for_each]. unfold cascaded_body. cbn [fst snd].
    rewrite decision_confident_first, result_bind_Ok, result_bind_Ok. cbn [fst snd].
    rewrite decision_partial_after_confident. reflexivity.
  - unfold cascaded_scores. cbn [for_each]. unfold cascaded_body. cbn [fst snd].
    rewrite decision_hesitant_first, result_bind_Ok, result_bind_Ok. cbn [fst snd].
    rewrite decision_partial_after_hesitant. reflexivity.
  - unfold cascaded_scores. cbn [for_each]. unfold cascaded_body. cbn [fst snd].
    rewrite decision_partial_alone. reflexivity.
  - exact decision_partial_alone.
  - vm_compute. reflexivity.
  - vm_compute. reflexivity.
  - vm_compute. reflexivity.
Qed.

(** ** The loader keeps the first target of an example *)

Section LoaderTargets.
Context {F : Type}.
Implicit Types (ln l : line F) (results r : pydict (example F))
  (dataset ds : pydict (list (line F))).

(** What [record_line] does, by the target already kept for the example. *)
Lemma record_line_cases name ln ds r :
  let ex := defaultdict_item new_example (data_id ln) r in
  let t := match target ex with Some t => t | None => line_target ln end in
  record_line name ln (ds, r)
  = if Z.eqb t (line_target ln)
    then Ok (dict_set name (defaultdict_item [] name ds ++ [ln])%list ds,
             dict_set (data_id ln)
               {| logits := dict_set name (line_logits ln) (logits ex);
                  target := Some t |} r)
    else Raise (AssertionError mismatch_msg).
Proof.
  unfold record_line. simpl.
  destruct (target (defaultdict_item new_example (data_id ln) r)) as [t0|]; simpl;
    reflexivity.
Qed.

Lemma record_line_raises name ln ds r e :
  record_line name ln (ds, r) = Raise e -> e = AssertionError mismatch_msg.
Proof.
  rewrite record_line_cases. simpl.
  destruct (Z.eqb _ _); [discriminate|]. intros Hraise. injection Hraise as <-.
  reflexivity.
Qed.

Lemma record_line_kept name ln ds r ds' r' :
  record_line name ln (ds, r) = Ok (ds', r') ->
  target_kept r' ln /\ (forall l, target_kept r l -> target_kept r' l).
Proof.
  rewrite record_line_cases. simpl.
  destruct (Z.eqb_spec
              (match target (defaultdict_item new_example (data_id ln) r) with
               | Some t => t
               | None => line_target ln
               end) (line_target ln)) as [Heq|Hne]; [|discriminate].
  intros Hok. injection Hok as <- <-. rewrite Heq. unfold target_kept. split.
  - eexists. rewrite dict_get_set_eq. split; reflexivity.
  - intros l (ex & Hget & Htarget).
    destruct (String.eqb_spec (data_id ln) (data_id l)) as [Hid|Hid].
    + rewrite <- Hid in *. eexists. rewrite dict_get_set_eq. split; [reflexivity|].
      simpl. rewrite <- Htarget. unfold defaultdict_item in Heq.
      rewrite Hget, Htarget in Heq. congruence.
    + exists ex. rewrite dict_get_set_ne by exact Hid. split; assumption.
Qed.

Lemma read_file_kept name (lines : list (line F)) ds r ds' r' :
  for_each (record_line name) lines (ds, r) = Ok (ds', r') ->
  (forall l, In l lines -> target_kept r' l)
  /\ (forall l, target_kept r l -> target_kept r' l).
Proof.
  revert ds r. induction lines as [|ln lines IH]; intros ds r Hrun.
  - injection Hrun as <- <-. split; [intros l [] | auto].
  - apply for_each_cons_Ok in Hrun as ([ds1 r1] & Hstep & Hrun).
    apply record_line_kept in Hstep as [Hself Hkeep].
    apply IH in Hrun as [Hlines Hkeep'].
    split.
    + intros l [<-|Hin]; [apply Hkeep', Hself | apply Hlines, Hin].
    + intros l Hl. apply Hkeep', Hkeep, Hl.
Qed.

Lemma read_file_raises name (lines : list (line F)) ds r e :
  for_each (record_line name) lines (ds, r) = Raise e ->
  e = AssertionError mismatch_msg.
Proof.
  revert ds r. induction lines as [|ln lines IH]; intros ds r Hrun; [discriminate|].
  apply for_each_cons_Raise in Hrun as [Hstep|([ds1 r1] & Hstep & Hrun)].
  - eapply record_line_raises, Hstep.
  - eapply IH, Hrun.
Qed.

Lemma read_files_kept (names : list string) (open_file : string -> list (line F))
    ds r ds' r' :
  for_each (fun name st => for_each (record_line name) (open_file name) st)
    names (ds, r) = Ok (ds', r') ->
  (forall name l, In name names -> In l (open_file name) -> target_kept r' l)
  /\ (forall l, target_kept r l -> target_kept r' l).
Proof.
  revert ds r. induction names as [|name names IH]; intros ds r Hrun.
  - injection Hrun as <- <-. split; [intros name l [] | auto].
  - apply for_each_cons_Ok in Hrun as ([ds1 r1] & Hfile & Hrun).
    apply read_file_kept in Hfile as [Hlines Hkeep].
    apply IH in Hrun as [Hnames Hkeep'].
    split.
    + intros name' l [<-|Hin] Hl; [apply Hkeep', Hlines, Hl | eapply Hnames; eauto].
    + intros l Hl. apply Hkeep', Hkeep, Hl.
Qed.

Lemma read_files_raises (names : list string) (open_file : string -> list (line F))
    ds r e :
  for_each (fun name st => for_each (record_line name) (open_file name) st)
    names (ds, r) = Raise e ->
  e = AssertionError mismatch_msg.
Proof.
  revert ds r. induction names as [|name names IH]; intros ds r Hrun; [discriminate|].
  apply for_each_cons_Raise in Hrun as [Hfile|([ds1 r1] & Hfile & Hrun)].
  - eapply read_file_raises, Hfile.
  - eapply IH, Hrun.
Qed.

(** C4, as the code has it.  When two of the lines read, from the same file
    or from two, have the same [data_id] and different targets, the loader
    raises the [AssertionError] of its [assert], whose message is the fixed
    sentence [mismatch_msg]; no index is returned.  When the loader returns,
    the target kept for the example of every line read is the target of
    that line: none was averaged or overwritten. *)
Theorem load_conflicting_targets (names : list string)
    (open_file : string -> list (line F)) :
  (forall n1 n2 l1 l2,
     In n1 names -> In n2 names -> In l1 (open_file n1) -> In l2 (open_file n2) ->
     data_id l1 = data_id l2 -> line_target l1 <> line_target l2 ->
     load_subsets names open_file = Raise (AssertionError mismatch_msg))
  /\ (forall ds r,
       load_subsets names open_file = Ok (ds, r) ->
       forall name l, In name names -> In l (open_file name) -> target_kept r l).
Proof.
  assert (Hkept : forall ds r,
    load_subsets names open_file = Ok (ds, r) ->
    forall name l, In name names -> In l (open_file name) -> target_kept r l).
  { intros ds r Hload. apply read_files_kept in Hload as [Hall _]. exact Hall. }
  split; [|exact Hkept].
  intros n1 n2 l1 l2 Hn1 Hn2 Hl1 Hl2 Hid Htarget.
  destruct (load_subsets names open_file) as [e|[ds r]] eqn:Hload.
  - apply read_files_raises in Hload as ->. reflexivity.
  - exfalso.
    destruct (Hkept ds r eq_refl n1 l1 Hn1 Hl1) as (ex1 & Hget1 & Ht1).
    destruct (Hkept ds r eq_refl n2 l2 Hn2 Hl2) as (ex2 & Hget2 & Ht2).
    rewrite Hid in Hget1. congruence.
Qed.

End LoaderTargets.

Lemma load_conflicting_targets_witness :
  load_and_transform_data conflicting_files = Raise (AssertionError mismatch_msg)
  /\ (forall ds r,
       load_subsets ["A"; "B"] scenario_files = Ok (ds, r) ->
       target_kept r (Line "2" "b" [2; 1]%float 1)).
Proof.
  destruct (load_conflicting_targets ["AS"; "R"; "U"; "baseline"] conflicting_files)
    as [Hraise _].
  destruct (load_conflicting_targets ["A"; "B"] scenario_files) as [_ Hkept].
  split.
  - apply (Hraise "AS" "R" (Line "7" "wow" [0; 1]%float 1) (Line "7" "wow" [1; 0]%float 0)).
    + simpl. auto.
    + simpl. auto.
    + simpl. auto.
    + simpl. auto.
    + reflexivity.
    + simpl. discriminate.
  - intros ds r Hload. apply (Hkept ds r Hload "B").
    + simpl. auto.
    + simpl. auto.
Defined.

(** Two experts give the example ["7_wow"] the targets [1] and [0]: both
    loaders raise an [AssertionError] whose message does not name the
    example. *)
Lemma load_conflicting_targets_counterexample :
  load_and_transform_data conflicting_files = Raise (AssertionError mismatch_msg)
  /\ sarc_load_and_transform_data conflicting_files = Raise (AssertionError mismatch_msg)
  /\ names_example mismatch_msg "7_wow" = false
  /\ names_example ("conflicting targets for 7_wow") "7_wow" = true.
Proof. repeat apply conj; vm_compute; reflexivity. Qed.

(** ** The order in which the files are read *)

Section LoaderOrder.
Context {F : Type}.
Implicit Types (ln l : line F) (r : pydict (example F)) (ds : pydict (list (line F)))
  (m : gmap string (gmap string (list F) * option Z))
  (om : option (gmap string (gmap string (list F) * option Z))).

Lemma index_of_nil : index_of ([] : pydict (example F)) = ∅.
Proof. unfold index_of. simpl. apply fmap_empty. Qed.

Lemma index_of_set r (id : string) (ex : example F) :
  index_of (dict_set id ex r) = <[id := example_view ex]> (index_of r).
Proof. unfold index_of. rewrite list_to_map_dict_set. apply fmap_insert. Qed.

Lemma index_of_get r (id : string) :
  index_of r !! id = example_view <$> dict_get id r.
Proof. unfold index_of. rewrite lookup_fmap, list_to_map_dict_get. reflexivity. Qed.

Lemma index_of_default r (id : string) :
  default (∅, None) (index_of r !! id)
  = example_view (defaultdict_item new_example id r).
Proof.
  rewrite index_of_get. unfold defaultdict_item.
  destruct (dict_get id r); reflexivity.
Qed.

(** [record_line] acts on the index as [index_step]. *)
Lemma record_line_index name ln ds r :
  match record_line name ln (ds, r) with
  | inr st => index_step name ln (index_of r) = Some (index_of (snd st))
  | inl _ => index_step name ln (index_of r) = None
  end.
Proof.
  rewrite record_line_cases. unfold index_step. rewrite index_of_default. simpl.
  destruct (Z.eqb _ _); simpl; [|reflexivity].
  rewrite index_of_set. unfold example_view. simpl.
  rewrite list_to_map_dict_set. reflexivity.
Qed.

Lemma index_file_cons name ln (lines : list (line F)) om :
  index_file name (ln :: lines) om = index_file name lines (om ≫= index_step name ln).
Proof. reflexivity. Qed.

Lemma index_files_cons (open_file : string -> list (line F)) name (names : list string) om :
  index_files open_file (name :: names) om
  = index_files open_file names (index_file name (open_file name) om).
Proof. reflexivity. Qed.

Lemma index_file_None name (lines : list (line F)) : index_file name lines None = None.
Proof. induction lines as [|ln lines IH]; simpl; [reflexivity | exact IH]. Qed.

Lemma index_files_None (open_file : string -> list (line F)) (names : list string) :
  index_files open_file names None = None.
Proof.
  induction names as [|name names IH]; simpl; [reflexivity|].
  rewrite index_file_None. exact IH.
Qed.

Lemma read_file_index name (lines : list (line F)) ds r :
  match for_each (record_line name) lines (ds, r) with
  | inr st => index_file name lines (Some (index_of r)) = Some (index_of (snd st))
  | inl _ => index_file name lines (Some (index_of r)) = None
  end.
Proof.
  revert ds r. induction lines as [|ln lines IH]; intros ds r; [reflexivity|].
  pose proof (record_line_index name ln ds r) as Hstep.
  rewrite for_each_cons, index_file_cons.
  destruct (record_line name ln (ds, r)) as [e|[ds1 r1]];
    cbn [mbind result_bind option_bind snd] in *; rewrite Hstep.
  - apply index_file_None.
  - apply IH.
Qed.

Lemma read_files_index (open_file : string -> list (line F)) (names : list string) ds r :
  match for_each (fun name st => for_each (record_line name) (open_file name) st)
          names (ds, r) with
  | inr st => index_files open_file names (Some (index_of r)) = Some (index_of (snd st))
  | inl _ => index_files open_file names (Some (index_of r)) = None
  end.
Proof.
  revert ds r. induction names as [|name names IH]; intros ds r; [reflexivity|].
  pose proof (read_file_index name (open_file name) ds r) as Hfile.
  rewrite for_each_cons, index_files_cons.
  destruct (for_each (record_line name) (open_file name) (ds, r)) as [e|[ds1 r1]];
    cbn [mbind result_bind snd] in *; rewrite Hfile.
  - apply index_files_None.
  - apply IH.
Qed.

(** Lines of two different subsets can be read in either order. *)
Lemma index_step_comm (n1 n2 : string) l1 l2 m :
  n1 <> n2 ->
  index_step n1 l1 m ≫= index_step n2 l2 = index_step n2 l2 m ≫= index_step n1 l1.
Proof.
  intros Hne. unfold index_step.
  destruct (decide (data_id l1 = data_id l2)) as [Hid|Hid].
  - rewrite <- Hid.
    destruct (default (∅, None) (m !! data_id l1)) as [lg [t|]]; simpl.
    + destruct (Z.eqb_spec t (line_target l1)) as [H1|H1],
               (Z.eqb_spec t (line_target l2)) as [H2|H2]; simpl;
        rewrite ?lookup_insert_eq; simpl;
        try (destruct (Z.eqb_spec t (line_target l1)); [|contradiction]);
        try (destruct (Z.eqb_spec t (line_target l2)); [|contradiction]);
        try (destruct (Z.eqb_spec t (line_target l1)); [contradiction|]);
        try (destruct (Z.eqb_spec t (line_target l2)); [contradiction|]);
        try reflexivity.
      rewrite !insert_insert_eq. do 3 f_equal. apply insert_insert_ne. congruence.
    + rewrite !Z.eqb_refl. simpl. rewrite !lookup_insert_eq. simpl.
      destruct (Z.eqb_spec (line_target l1) (line_target l2)) as [H12|H12],
               (Z.eqb_spec (line_target l2) (line_target l1)) as [H21|H21];
        try congruence; try reflexivity.
      rewrite !insert_insert_eq, H12. do 3 f_equal. apply insert_insert_ne. congruence.
  - destruct (default (∅, None) (m !! data_id l1)) as [lg1 tg1] eqn:E1.
    destruct (default (∅, None) (m !! data_id l2)) as [lg2 tg2] eqn:E2. simpl.
    destruct (Z.eqb _ (line_target l1)) eqn:C1, (Z.eqb _ (line_target l2)) eqn:C2;
      simpl; rewrite ?lookup_insert_ne by congruence; rewrite ?E1, ?E2; simpl;
      rewrite ?C1, ?C2; try reflexivity.
    f_equal. apply insert_insert_ne. congruence.
Qed.

Lemma option_bind_comm om (n1 n2 : string) l1 l2 :
  n1 <> n2 ->
  (om ≫= index_step n1 l1) ≫= index_step n2 l2
  = (om ≫= index_step n2 l2) ≫= index_step n1 l1.
Proof.
  intros Hne. destruct om as [m|]; [|reflexivity]. apply index_step_comm, Hne.
Qed.

(** A line of one subset can be read before or after the file of another. *)
Lemma index_file_step_comm (n1 n2 : string) l1 (lines : list (line F)) om :
  n1 <> n2 ->
  index_file n2 lines (om ≫= index_step n1 l1)
  = index_file n2 lines om ≫= index_step n1 l1.
Proof.
  intros Hne. revert om. induction lines as [|l2 lines IH]; intros om; [reflexivity|].
  rewrite !index_file_cons, <- IH. f_equal. apply option_bind_comm, Hne.
Qed.

(** The files of two different subsets can be read in either order. *)
Lemma index_file_comm (n1 n2 : string) (lines1 lines2 : list (line F)) om :
  n1 <> n2 ->
  index_file n2 lines2 (index_file n1 lines1 om)
  = index_file n1 lines1 (index_file n2 lines2 om).
Proof.
  intros Hne. revert om. induction lines1 as [|l1 lines1 IH]; intros om; [reflexivity|].
  rewrite !index_file_cons, IH. f_equal. apply index_file_step_comm, Hne.
Qed.

(** The index does not depend on the order of the subsets. *)
Lemma index_files_perm (open_file : string -> list (line F)) (names names' : list string) :
  names ≡ₚ names' -> NoDup names ->
  forall om, index_files open_file names om = index_files open_file names' om.
Proof.
  induction 1 as [|name names names' Hperm IH|n1 n2 names|names1 names2 names3 H12 IH12 H23 IH23];
    intros Hnd om.
  - reflexivity.
  - rewrite !index_files_cons. apply IH. apply NoDup_cons in Hnd. tauto.
  - rewrite !index_files_cons. f_equal. apply index_file_comm.
    apply NoDup_cons in Hnd as [Hnin _]. intros ->. apply Hnin. left.
  - rewrite IH12 by exact Hnd. apply IH23. rewrite <- H12. exact Hnd.
Qed.

Lemma load_subsets_index (open_file : string -> list (line F)) (names : list string) :
  match load_subsets names open_file with
  | inr st => index_files open_file names (Some ∅) = Some (index_of (snd st))
  | inl _ => index_files open_file names (Some ∅) = None
  end.
Proof.
  pose proof (read_files_index open_file names [] []) as Hidx.
  rewrite index_of_nil in Hidx. exact Hidx.
Qed.

End LoaderOrder.

(** C8.  When the files of a list of distinct subsets load, they load in any
    other order, and the aggregated index is the same: the same set of
    [data_id]s and, for each of them, the same logits by expert and the same
    target. *)
Theorem load_order_independent {F : Type} (open_file : string -> list (line F))
    (names names' : list string) (ds : pydict (list (line F))) (r : pydict (example F)) :
  NoDup names -> names ≡ₚ names' ->
  load_subsets names open_file = Ok (ds, r) ->
  exists ds' r',
    load_subsets names' open_file = Ok (ds', r')
    /\ index_of r' = index_of r
    /\ (dom (index_of r') : gset string) = dom (index_of r)
    /\ (forall id, example_view <$> dict_get id r' = example_view <$> dict_get id r).
Proof.
  intros Hnd Hperm Hload.
  pose proof (load_subsets_index open_file names) as Hidx.
  pose proof (load_subsets_index open_file names') as Hidx'.
  rewrite Hload in Hidx. simpl in Hidx.
  rewrite (index_files_perm open_file names names' Hperm Hnd) in Hidx.
  destruct (load_subsets names' open_file) as [e|[ds' r']]; simpl in Hidx'.
  - congruence.
  - assert (Heq : index_of r' = index_of r) by congruence.
    exists ds', r'. split; [reflexivity|]. split; [exact Heq|].
    split; [rewrite Heq; reflexivity|].
    intros id. rewrite <- !index_of_get, Heq. reflexivity.
Qed.

Lemma load_order_independent_witness :
  exists ds' r',
    load_subsets ["B"; "A"] scenario_files = Ok (ds', r')
    /\ index_of r' = index_of scenario_results
    /\ (dom (index_of r') : gset string) = dom (index_of scenario_results)
    /\ (forall id, example_view <$> dict_get id r'
                   = example_view <$> dict_get id scenario_results).
Proof.
  apply (load_order_independent scenario_files ["A"; "B"] ["B"; "A"]
           [("A", scenario_A); ("B", scenario_B)] scenario_results).
  - apply (bool_decide_unpack _). vm_compute. exact I.
  - apply Permutation_swap.
  - vm_compute. reflexivity.
Defined.

(** ** Weights *)

Section Weights.
Context {F : Type} `{Scalar F}.

Lemma comprehension_map {A B} (f : A -> result B) (g : A -> B) (l : list A) :
  (forall x, In x l -> f x = Ok (g x)) -> comprehension f l = Ok (map g l).
Proof.
  induction l as [|x l IH]; intros Hf; simpl; [reflexivity|].
  rewrite Hf by (left; reflexivity). simpl.
  rewrite IH by (intros y Hy; apply Hf; right; exact Hy). reflexivity.
Qed.

Lemma weighted_sum_fold (pairs : list (F * list F)) (i : nat) (acc : F) :
  (forall wl, In wl pairs -> (i < length (snd wl))%nat) ->
  for_each (fun wl acc =>
              match snd wl !! i with
              | Some x => Ok (sadd acc (smul (fst wl) x))
              | None => Raise IndexError
              end) pairs acc
  = Ok (fold_left (fun acc wl => sadd acc (smul (fst wl) (nth i (snd wl) szero)))
          pairs acc).
Proof.
  revert acc. induction pairs as [|wl pairs IH]; intros acc Hlen; [reflexivity|].
  rewrite for_each_cons.
  destruct (snd wl !! i) as [x|] eqn:Hx.
  - rewrite result_bind_Ok. rewrite IH by (intros wl' Hin; apply Hlen; right; exact Hin).
    simpl. rewrite (nth_lookup_Some _ _ szero x Hx). reflexivity.
  - apply lookup_ge_None in Hx. specialize (Hlen wl (or_introl eq_refl)). lia.
Qed.

(** [zip] stops at the last weight: the experts beyond it do not count. *)
Lemma weighted_sum_take (weights : list F) (values : list (list F)) (i : nat) :
  weighted_sum weights values i
  = weighted_sum weights (take (length weights) values) i.
Proof. unfold weighted_sum. rewrite <- combine_firstn_l. reflexivity. Qed.

Lemma comprehension_ext {A B} (f g : A -> result B) (l : list A) :
  (forall x, f x = g x) -> comprehension f l = comprehension g l.
Proof.
  intros Hfg. induction l as [|x l IH]; simpl; [reflexivity|].
  rewrite Hfg, IH. reflexivity.
Qed.

(** C9, as the code has it.  The weights are a list, paired by position with
    the experts of the example in the order in which they were loaded, and
    a missing weight raises nothing: with at least one weight, the label is
    that of the example cut down to as many experts as there are weights.
    When the logits of the experts all have the length [len], the label is
    the first-position argmax of the elementwise weighted sum of the experts
    that have a weight, whatever the weights sum to. *)
Theorem weighted_average_by_position (weights : list F) (data : example F) (len : nat) :
  (weights <> [] ->
   weighted_average_label weights data
   = weighted_average_label weights
       {| logits := take (length weights) (logits data); target := target data |})
  /\ (dict_values (logits data) <> [] ->
      Forall (fun lg => length lg = len) (dict_values (logits data)) ->
      weighted_vector weights data
        = Ok (elementwise_weighted_sum weights (dict_values (logits data)) len)
      /\ weighted_average_label weights data
        = index_of_max (elementwise_weighted_sum weights (dict_values (logits data)) len)).
Proof.
  split.
  - intros Hw. unfold weighted_average_label, weighted_vector. cbn [logits].
    unfold dict_values. rewrite <- firstn_map.
    destruct weights as [|w weights]; [congruence|].
    destruct (map snd (logits data)) as [|first rest]; [reflexivity|].
    cbn [length take firstn].
    f_equal. apply comprehension_ext. intros i.
    rewrite (weighted_sum_take (w :: weights) (first :: rest)). reflexivity.
  - intros Hne Hlen.
    assert (Hvec : weighted_vector weights data
                   = Ok (elementwise_weighted_sum weights (dict_values (logits data)) len)).
    { unfold weighted_vector, elementwise_weighted_sum.
      destruct (dict_values (logits data)) as [|first rest] eqn:Hvalues; [congruence|].
      pose proof (Forall_inv Hlen) as Hfirst. rewrite Hfirst.
      apply comprehension_map. intros i Hi. apply in_seq in Hi.
      apply weighted_sum_fold. intros [w lg] Hin. apply in_combine_r in Hin.
      rewrite Forall_forall in Hlen. apply list_elem_of_In, Hlen in Hin.
      simpl in *. lia. }
    split; [exact Hvec|].
    unfold weighted_average_label. rewrite Hvec. reflexivity.
Qed.

End Weights.

Lemma weighted_average_by_position_witness :
  let S := float_scalar exp_series in
  @weighted_average_label _ S [1]%float weighted_example
    = @weighted_average_label _ S [1]%float (Example [("AS", [0; 1]%float)] (Some 0))
  /\ @weighted_vector _ S [1; 0.5]%float weighted_example = Ok [2.5; 1]%float
  /\ @weighted_average_label _ S [1; 0.5]%float weighted_example = Ok O.
Proof.
  intros S.
  destruct (@weighted_average_by_position float S [1]%float weighted_example 2)
    as [Hcut _].
  destruct (@weighted_average_by_position float S [1; 0.5]%float weighted_example 2)
    as [_ Hsum].
  split.
  - apply Hcut. discriminate.
  - destruct Hsum as [Hvec Hlabel].
    + discriminate.
    + forall_list ltac:(reflexivity).
    + rewrite Hvec, Hlabel. split; vm_compute; reflexivity.
Defined.

(** One weight for two experts: nothing is raised, and the label is that of
    the first expert alone, [1], where the two experts weighted [1] and [1]
    give [0]. *)
Lemma weighted_average_counterexample :
  let S := float_scalar exp_series in
  length (logits weighted_example) = 2%nat
  /\ @weighted_average_label _ S [1]%float weighted_example = Ok 1%nat
  /\ @weighted_average_label _ S [1; 1]%float weighted_example = Ok O
  /\ @weighted_average_fusion _ S [("7_wow", weighted_example)] [1]%float
     = Ok (Metrics 0 0 0 (Some 0%Q))
  /\ @sarc_weighted_average_fusion _ S [("7_wow", weighted_example)] [1]%float
     = Ok 0%Q.
Proof. intros S. repeat apply conj; vm_compute; reflexivity. Qed.

(** * Further properties of the loader *)

Section LoaderReturns.
Context {F : Type}.
Implicit Types (ln l : line F) (r : pydict (example F)) (ds : pydict (list (line F))).





End LoaderReturns.


Section DictMore.
Context {V : Type}.
Implicit Types (d : pydict V) (k : string) (v : V).

Lemma dict_get_In d k v : dict_get k d = Some v -> In (k, v) d.
Proof.
  induction d as [|[k' v'] d IH]; simpl; [discriminate|].
  destruct (String.eqb_spec k k') as [->|Hne].
  - intros Hget. injection Hget as ->. left. reflexivity.
  - intros Hget. right. apply IH, Hget.
Qed.

Lemma dict_set_Forall (P : string * V -> Prop) d k v :
  Forall P d -> P (k, v) -> Forall P (dict_set k v d).
Proof.
  intros Hd Hv. induction Hd as [|[k' v'] d Hkv Hd IH]; simpl.
  - constructor; [exact Hv | constructor].
  - destruct (String.eqb_spec k k') as [->|Hne]; constructor; assumption.
Qed.

Lemma dict_set_nonempty d k v : dict_set k v d <> [].
Proof. destruct d as [|[k' v'] d]; simpl; [|destruct (String.eqb k k')]; discriminate. Qed.

Lemma dict_keys_set_In d k v k' :
  In k' (dict_keys (dict_set k v d)) -> k' = k \/ In k' (dict_keys d).
Proof.
  rewrite dict_keys_set. destruct (dict_get k d); [auto|].
  intros Hin. apply in_app_or in Hin as [Hin|[<-|[]]]; auto.
Qed.

End DictMore.

Section LoaderShape.
Context {F : Type}.
Implicit Types (ln l : line F) (r : pydict (example F)) (ds : pydict (list (line F))).

Lemma record_line_shape (names : list string) name ln ds r ds' r' :
  In name names ->
  record_line name ln (ds, r) = Ok (ds', r') ->
  NoDup (dict_keys r) /\ Forall (fun kv => loaded_example names (snd kv)) r ->
  NoDup (dict_keys r') /\ Forall (fun kv => loaded_example names (snd kv)) r'.
Proof.
  intros Hname. rewrite record_line_cases. cbn zeta.
  destruct (Z.eqb _ _); [|discriminate].
  intros Hok [Hnd Hall]. injection Hok as <- <-.
  split; [apply dict_set_NoDup, Hnd|].
  apply dict_set_Forall; [exact Hall|]. cbn [snd].
  assert (Hold : NoDup (dict_keys (logits (defaultdict_item new_example (data_id ln) r)))
                 /\ (forall k, In k (dict_keys
                                       (logits (defaultdict_item new_example (data_id ln) r))) ->
                               In k names)).
  { unfold defaultdict_item.
    destruct (dict_get (data_id ln) r) as [ex|] eqn:Hget.
    - apply dict_get_In in Hget. rewrite List.Forall_forall in Hall.
      destruct (Hall _ Hget) as (_ & _ & Hk & Hin). split; assumption.
    - split; [apply NoDup_nil_2 | intros k []]. }
  destruct Hold as [Hk Hin]. unfold loaded_example. cbn [logits target].
  split; [eauto|]. split; [apply dict_set_nonempty|].
  split; [apply dict_set_NoDup, Hk|].
  intros k Hkin. apply dict_keys_set_In in Hkin as [->|Hkin]; auto.
Qed.

Lemma read_file_shape (names : list string) name (lines : list (line F)) ds r ds' r' :
  In name names ->
  for_each (record_line name) lines (ds, r) = Ok (ds', r') ->
  NoDup (dict_keys r) /\ Forall (fun kv => loaded_example names (snd kv)) r ->
  NoDup (dict_keys r') /\ Forall (fun kv => loaded_example names (snd kv)) r'.
Proof.
  intros Hname. revert ds r.
  induction lines as [|ln lines IH]; intros ds r Hrun Hshape.
  - injection Hrun as <- <-. exact Hshape.
  - apply for_each_cons_Ok in Hrun as ([ds1 r1] & Hstep & Hrun).
    eapply IH; [exact Hrun|]. eapply record_line_shape; eassumption.
Qed.

Lemma read_files_shape (names : list string) (open_file : string -> list (line F))
    (todo : list string) ds0 r0 ds r :
  (forall n, In n todo -> In n names) ->
  for_each (fun name st => for_each (record_line name) (open_file name) st)
    todo (ds0, r0) = Ok (ds, r) ->
  NoDup (dict_keys r0) /\ Forall (fun kv => loaded_example names (snd kv)) r0 ->
  NoDup (dict_keys r) /\ Forall (fun kv => loaded_example names (snd kv)) r.
Proof.
  revert ds0 r0. induction todo as [|name todo IH]; intros ds0 r0 Hsub Hrun Hshape.
  - injection Hrun as <- <-. exact Hshape.
  - apply for_each_cons_Ok in Hrun as ([ds1 r1] & Hfile & Hrun).
    eapply (IH ds1 r1); [intros n Hn; apply Hsub; right; exact Hn | exact Hrun |].
    eapply read_file_shape; [apply Hsub; left; reflexivity | exact Hfile | exact Hshape].
Qed.

Lemma load_subsets_shape (names : list string) (open_file : string -> list (line F))
    ds r :
  load_subsets names open_file = Ok (ds, r) ->
  NoDup (dict_keys r) /\ Forall (fun kv => loaded_example names (snd kv)) r.
Proof.
  intros Hload. eapply read_files_shape; [intros n Hn; exact Hn | exact Hload |].
  split; [apply NoDup_nil_2 | constructor].
Qed.

(** X2.  Every example of a loaded index has a target, holds at least one
    expert, holds each expert once, and holds only subsets that were read;
    the [data_id]s of the index are distinct. *)
Theorem loaded_index_shape (names : list string) (open_file : string -> list (line F))
    ds r :
  load_subsets names open_file = Ok (ds, r) ->
  NoDup (dict_keys r) /\ Forall (fun kv => loaded_example names (snd kv)) r.
Proof. apply load_subsets_shape. Qed.

End LoaderShape.

Lemma loaded_index_shape_witness :
  NoDup (dict_keys scenario_results)
  /\ Forall (fun kv => loaded_example ["A"; "B"] (snd kv)) scenario_results.
Proof.
  apply (loaded_index_shape ["A"; "B"] scenario_files
           [("A", scenario_A); ("B", scenario_B)] scenario_results).
  vm_compute. reflexivity.
Defined.

Section LoaderContents.
Context {F : Type}.
Implicit Types (ln l : line F) (r : pydict (example F)) (ds : pydict (list (line F))).

Lemma lines_about_cons (id : string) ln (lines : list (line F)) :
  lines_about id (ln :: lines)
  = if String.eqb (data_id ln) id then ln :: lines_about id lines
    else lines_about id lines.
Proof. reflexivity. Qed.

Lemma lines_about_In (id : string) l (lines : list (line F)) :
  In l (lines_about id lines) <-> In l lines /\ data_id l = id.
Proof.
  unfold lines_about. rewrite filter_In.
  destruct (String.eqb_spec (data_id l) id); intuition congruence.
Qed.

(** One line writes the logits of its expert for its example, and nothing
    else. *)
Lemma record_line_stored name ln ds r ds' r' (id k : string) :
  record_line name ln (ds, r) = Ok (ds', r') ->
  stored_logits r' id k
  = if String.eqb (data_id ln) id && String.eqb name k
    then Some (line_logits ln) else stored_logits r id k.
Proof.
  rewrite record_line_cases. cbn zeta. destruct (Z.eqb _ _); [|discriminate].
  intros Hok. injection Hok as <- <-. unfold stored_logits.
  destruct (String.eqb_spec (data_id ln) id) as [<-|Hid]; cbn [andb].
  - rewrite dict_get_set_eq. cbn [logits].
    destruct (String.eqb_spec name k) as [<-|Hk].
    + apply dict_get_set_eq.
    + rewrite dict_get_set_ne by exact Hk. unfold defaultdict_item.
      destruct (dict_get (data_id ln) r); reflexivity.
  - rewrite dict_get_set_ne by exact Hid. reflexivity.
Qed.

Lemma read_file_stored name (lines : list (line F)) ds r ds' r' (id k : string) :
  for_each (record_line name) lines (ds, r) = Ok (ds', r') ->
  stored_logits r' id k
  = if String.eqb name k
    then match last (lines_about id lines) with
         | Some l => Some (line_logits l)
         | None => stored_logits r id k
         end
    else stored_logits r id k.
Proof.
  revert ds r. induction lines as [|ln lines IH]; intros ds r Hrun.
  - injection Hrun as <- <-. destruct (String.eqb name k); reflexivity.
  - apply for_each_cons_Ok in Hrun as ([ds1 r1] & Hstep & Hrun).
    rewrite (IH _ _ Hrun), (record_line_stored _ _ _ _ _ _ id k Hstep), lines_about_cons.
    destruct (String.eqb name k); [|rewrite andb_false_r; reflexivity].
    rewrite andb_true_r. destruct (String.eqb (data_id ln) id); [|reflexivity].
    rewrite last_cons. destruct (last (lines_about id lines)); reflexivity.
Qed.

Lemma read_files_stored (open_file : string -> list (line F)) (names : list string)
    ds r ds' r' (id k : string) :
  NoDup names ->
  for_each (fun name st => for_each (record_line name) (open_file name) st)
    names (ds, r) = Ok (ds', r') ->
  (In k names ->
   stored_logits r' id k
   = match last (lines_about id (open_file k)) with
     | Some l => Some (line_logits l)
     | None => stored_logits r id k
     end)
  /\ (~ In k names -> stored_logits r' id k = stored_logits r id k).
Proof.
  revert ds r. induction names as [|name names IH]; intros ds r Hnd Hrun.
  - injection Hrun as <- <-. split; [intros [] | reflexivity].
  - apply for_each_cons_Ok in Hrun as ([ds1 r1] & Hfile & Hrun).
    apply NoDup_cons in Hnd as [Hnin Hnd].
    destruct (IH _ _ Hnd Hrun) as [Hin Hout].
    pose proof (read_file_stored _ _ _ _ _ _ id k Hfile) as Hone.
    split.
    + intros [<-|Hk].
      * rewrite Hout by (intros Hk; apply Hnin, list_elem_of_In, Hk).
        rewrite Hone, String.eqb_refl. reflexivity.
      * rewrite (Hin Hk), Hone.
        destruct (String.eqb_spec name k) as [->|_]; [|reflexivity].
        exfalso. apply Hnin, list_elem_of_In, Hk.
    + intros Hk. rewrite Hout by (intros Hk'; apply Hk; right; exact Hk').
      rewrite Hone. destruct (String.eqb_spec name k) as [->|_]; [|reflexivity].
      exfalso. apply Hk. left. reflexivity.
Qed.

(** X3.  After a load of distinct subsets, the logits kept for an example
    under a subset that was read are those of the last line of that
    subset's file about the example (none when the file has no such line);
    nothing is kept under any other name. *)
Theorem loaded_logits_last_line (names : list string)
    (open_file : string -> list (line F)) ds r (id name : string) :
  NoDup names ->
  load_subsets names open_file = Ok (ds, r) ->
  (In name names ->
   stored_logits r id name = line_logits <$> last (lines_about id (open_file name)))
  /\ (~ In name names -> stored_logits r id name = None).
Proof.
  intros Hnd Hload.
  destruct (read_files_stored open_file names [] [] ds r id name Hnd Hload) as [Hin Hout].
  split.
  - intros Hname. rewrite (Hin Hname).
    destruct (last (lines_about id (open_file name))); reflexivity.
  - intros Hname. rewrite (Hout Hname). reflexivity.
Qed.

(** X4.  The loaded index holds an example for a [data_id] exactly when a
    line of one of the files read is about it. *)
Theorem loaded_index_keys (names : list string) (open_file : string -> list (line F))
    ds r (id : string) :
  NoDup names ->
  load_subsets names open_file = Ok (ds, r) ->
  (exists ex, dict_get id r = Some ex)
  <-> (exists name l, In name names /\ In l (open_file name) /\ data_id l = id).
Proof.
  intros Hnd Hload. split.
  - intros (ex & Hget).
    destruct (load_subsets_shape names open_file ds r Hload) as [_ Hall].
    rewrite List.Forall_forall in Hall.
    destruct (Hall _ (dict_get_In _ _ _ Hget)) as (_ & Hne & _ & Hsub). cbn [snd] in *.
    destruct (logits ex) as [|[k v] lg] eqn:Hlg; [congruence|].
    assert (Hk : In k names) by (apply Hsub; left; reflexivity).
    destruct (read_files_stored open_file names [] [] ds r id k Hnd Hload) as [Hin _].
    specialize (Hin Hk). unfold stored_logits at 1 in Hin. rewrite Hget, Hlg in Hin.
    simpl in Hin. rewrite String.eqb_refl in Hin.
    destruct (last (lines_about id (open_file k))) as [l|] eqn:Hlast; [|discriminate].
    apply last_Some in Hlast as (pre & Hpre).
    assert (Hl : In l (lines_about id (open_file k)))
      by (rewrite Hpre; apply in_or_app; right; left; reflexivity).
    apply lines_about_In in Hl as [Hl Hid]. eauto.
  - intros (name & l & Hname & Hl & <-).
    apply read_files_kept in Hload as [Hall _].
    destruct (Hall name l Hname Hl) as (ex & Hget & _). eauto.
Qed.

End LoaderContents.

Lemma loaded_logits_last_line_witness :
  stored_logits scenario_results "2_b" "B" = Some [2; 1]%float
  /\ stored_logits scenario_results "2_b" "C" = None.
Proof.
  destruct (loaded_logits_last_line ["A"; "B"] scenario_files
              [("A", scenario_A); ("B", scenario_B)] scenario_results "2_b" "B")
    as [Hin _]; [apply (bool_decide_unpack _); vm_compute; exact I | vm_compute; reflexivity |].
  destruct (loaded_logits_last_line ["A"; "B"] scenario_files
              [("A", scenario_A); ("B", scenario_B)] scenario_results "2_b" "C")
    as [_ Hout]; [apply (bool_decide_unpack _); vm_compute; exact I | vm_compute; reflexivity |].
  split.
  - rewrite Hin by (simpl; auto). vm_compute. reflexivity.
  - apply Hout. simpl. intros [H|[H|[]]]; discriminate.
Defined.

Lemma loaded_index_keys_witness :
  (exists ex, dict_get "3_c" scenario_results = Some ex)
  <-> (exists name l, In name ["A"; "B"] /\ In l (scenario_files name)
                      /\ data_id l = "3_c").
Proof.
  apply (loaded_index_keys ["A"; "B"] scenario_files
           [("A", scenario_A); ("B", scenario_B)] scenario_results "3_c").
  - apply (bool_decide_unpack _). vm_compute. exact I.
  - vm_compute. reflexivity.
Defined.

Section LoaderDataset.
Context {F : Type}.
Implicit Types (ln l : line F) (r : pydict (example F)) (ds : pydict (list (line F))).

Lemma record_line_dataset name ln ds r ds' r' (k : string) :
  record_line name ln (ds, r) = Ok (ds', r') ->
  dict_get k ds'
  = if String.eqb name k then Some (default [] (dict_get k ds) ++ [ln])%list
    else dict_get k ds.
Proof.
  rewrite record_line_cases. cbn zeta. destruct (Z.eqb _ _); [|discriminate].
  intros Hok. injection Hok as <- <-.
  destruct (String.eqb_spec name k) as [<-|Hk].
  - rewrite dict_get_set_eq. unfold defaultdict_item.
    destruct (dict_get name ds); reflexivity.
  - apply dict_get_set_ne, Hk.
Qed.

Lemma read_file_dataset name (lines : list (line F)) ds r ds' r' (k : string) :
  for_each (record_line name) lines (ds, r) = Ok (ds', r') ->
  dict_get k ds'
  = if String.eqb name k
    then match lines with
         | [] => dict_get k ds
         | _ => Some (default [] (dict_get k ds) ++ lines)%list
         end
    else dict_get k ds.
Proof.
  revert ds r. induction lines as [|ln lines IH]; intros ds r Hrun.
  - injection Hrun as <- <-. destruct (String.eqb name k); reflexivity.
  - apply for_each_cons_Ok in Hrun as ([ds1 r1] & Hstep & Hrun).
    rewrite (IH _ _ Hrun), (record_line_dataset _ _ _ _ _ _ k Hstep).
    destruct (String.eqb name k); [|reflexivity].
    destruct lines as [|ln' lines]; [reflexivity|].
    f_equal. cbn [default]. unfold Datatypes.id. rewrite <- app_assoc. reflexivity.
Qed.

Lemma read_files_dataset (open_file : string -> list (line F)) (names : list string)
    ds r ds' r' (k : string) :
  NoDup names ->
  for_each (fun name st => for_each (record_line name) (open_file name) st)
    names (ds, r) = Ok (ds', r') ->
  dict_get k ds'
  = if existsb (String.eqb k) names
    then match open_file k with
         | [] => dict_get k ds
         | _ => Some (default [] (dict_get k ds) ++ open_file k)%list
         end
    else dict_get k ds.
Proof.
  revert ds r. induction names as [|name names IH]; intros ds r Hnd Hrun.
  - injection Hrun as <- <-. reflexivity.
  - apply for_each_cons_Ok in Hrun as ([ds1 r1] & Hfile & Hrun).
    apply NoDup_cons in Hnd as [Hnin Hnd].
    rewrite (IH _ _ Hnd Hrun), (read_file_dataset _ _ _ _ _ _ k Hfile).
    cbn [existsb]. rewrite (String.eqb_sym k name).
    destruct (String.eqb_spec name k) as [<-|Hk]; cbn [orb]; [|reflexivity].
    assert (Hout : existsb (String.eqb name) names = false).
    { destruct (existsb (String.eqb name) names) eqn:Hex; [|reflexivity].
      apply existsb_exists in Hex as (n & Hn & Heq). apply String.eqb_eq in Heq.
      subst n. exfalso. apply Hnin, list_elem_of_In, Hn. }
    rewrite Hout. reflexivity.
Qed.

(** X5.  The first value the loader returns, [dataset], holds under each
    subset that was read the lines of its file, in the order of the file;
    a subset whose file is empty, and any other name, has no entry. *)
Theorem loaded_dataset_lines (names : list string) (open_file : string -> list (line F))
    ds r (name : string) :
  NoDup names ->
  load_subsets names open_file = Ok (ds, r) ->
  (In name names -> open_file name <> [] -> dict_get name ds = Some (open_file name))
  /\ (~ In name names \/ open_file name = [] -> dict_get name ds = None).
Proof.
  intros Hnd Hload.
  pose proof (read_files_dataset open_file names [] [] ds r name Hnd Hload) as Hds.
  cbn [dict_get default app] in Hds. split.
  - intros Hin Hne. rewrite Hds.
    replace (existsb (String.eqb name) names) with true.
    + destruct (open_file name); [congruence | reflexivity].
    + symmetry. apply existsb_exists. exists name.
      split; [exact Hin | apply String.eqb_refl].
  - intros Hout. rewrite Hds.
    destruct (existsb (String.eqb name) names) eqn:Hex; [|reflexivity].
    destruct Hout as [Hnin | ->]; [|reflexivity].
    apply existsb_exists in Hex as (n & Hn & Heq). apply String.eqb_eq in Heq.
    subst n. contradiction.
Qed.

End LoaderDataset.

Lemma loaded_dataset_lines_witness :
  dict_get "B" [("A", scenario_A); ("B", scenario_B)] = Some scenario_B
  /\ dict_get "baseline" [("A", scenario_A); ("B", scenario_B)] = None.
Proof.
  destruct (loaded_dataset_lines ["A"; "B"] scenario_files
              [("A", scenario_A); ("B", scenario_B)] scenario_results "B") as [Hin _];
    [apply (bool_decide_unpack _); vm_compute; exact I | vm_compute; reflexivity |].
  destruct (loaded_dataset_lines ["A"; "B"] scenario_files
              [("A", scenario_A); ("B", scenario_B)] scenario_results "baseline")
    as [_ Hout];
    [apply (bool_decide_unpack _); vm_compute; exact I | vm_compute; reflexivity |].
  split.
  - apply Hin; [simpl; auto | discriminate].
  - apply Hout. right. reflexivity.
Defined.

(** * Further properties of the strategies *)

Section Bounds.
Context {F : Type} `{Scalar F}.

Lemma py_max_from_bound (l : list F) (i k : nat) (m : F) :
  (k < i)%nat -> (fst (py_max_from i k m l) < i + length l)%nat.
Proof.
  revert i k m. induction l as [|x l IH]; intros i k m Hk; simpl; [lia|].
  destruct (sgtb x m).
  - specialize (IH (S i) i x). lia.
  - specialize (IH (S i) k m). lia.
Qed.

Lemma py_index_from_bound (l : list F) (i k j : nat) (m : F) :
  py_index_from i k m l = Ok j -> (i <= j < i + length l)%nat.
Proof.
  revert i. induction l as [|x l IH]; intros i; simpl; [discriminate|].
  destruct (Nat.eqb i k || seqb x m).
  - intros Hj. injection Hj as <-. lia.
  - intros Hj. apply IH in Hj. lia.
Qed.

Lemma index_of_max_bound (l : list F) (j : nat) :
  index_of_max l = Ok j -> (j < length l)%nat.
Proof.
  unfold index_of_max. destruct l as [|x l]; [discriminate|].
  cbn [py_max_pos]. rewrite result_bind_Ok. intros Hj.
  apply py_index_from_bound in Hj. lia.
Qed.

Lemma np_argmax_from_bound (a : list F) (i k : nat) (mp : F) :
  (k < i)%nat -> (np_argmax_from i k mp a < i + length a)%nat.
Proof.
  revert i k mp. induction a as [|x a IH]; intros i k mp Hk; simpl; [lia|].
  destruct (negb (sleb x mp)).
  - destruct (is_nan x); [lia|]. specialize (IH (S i) i x). lia.
  - specialize (IH (S i) k mp). lia.
Qed.

Lemma np_argmax_bound (a : list F) (j : nat) :
  np_argmax a = Ok j -> (j < length a)%nat.
Proof.
  destruct a as [|x a]; [discriminate|]. simpl. intros Hj. injection Hj as <-.
  destruct (is_nan x); [lia|].
  pose proof (np_argmax_from_bound a 1 0 x). lia.
Qed.


(** X6.  A label that a strategy returns is a position of the vector it
    took the argmax of: of the expert's logits, of the averages, of the
    weighted sums, of the maxima, of the mean of the probabilities (or [0]
    when no expert is there). *)
Theorem labels_in_range (interaction_type : string) (weights : list F)
    (data : example F) (label : nat) :
  (interaction_type_label interaction_type data = Ok label ->
     (label < length (interaction_type_vector interaction_type data))%nat)
  /\ (simple_average_label data = Ok label ->
      (label < length (simple_average_vector data))%nat)
  /\ (weighted_average_label weights data = Ok label ->
      exists v, weighted_vector weights data = Ok v /\ (label < length v)%nat)
  /\ (max_fusion_label data = Ok label ->
      exists v, max_vector data = Ok v /\ (label < length v)%nat)
  /\ (softmax_fusion_label data = Ok label ->
      (softmax_vector data = Ok None /\ label = O)
      \/ exists v, softmax_vector data = Ok (Some v) /\ (label < length v)%nat).
Proof.
  repeat apply conj.
  - apply index_of_max_bound.
  - apply index_of_max_bound.
  - unfold weighted_average_label.
    destruct (weighted_vector weights data) as [e|v]; [discriminate|].
    rewrite result_bind_Ok. intros Hl. exists v. split; [reflexivity|].
    apply index_of_max_bound, Hl.
  - unfold max_fusion_label.
    destruct (max_vector data) as [e|v]; [discriminate|].
    rewrite result_bind_Ok. intros Hl. exists v. split; [reflexivity|].
    apply index_of_max_bound, Hl.
  - unfold softmax_fusion_label.
    destruct (softmax_vector data) as [e|[v|]]; [discriminate| |].
    + rewrite result_bind_Ok. intros Hl. right. exists v. split; [reflexivity|].
      apply np_argmax_bound, Hl.
    + rewrite result_bind_Ok. intros Hl. injection Hl as <-. left. split; reflexivity.
Qed.

End Bounds.

Lemma labels_in_range_witness :
  let S := float_scalar exp_series in
  (@interaction_type_label _ S "R" weighted_example = Ok O
   /\ (O < length (interaction_type_vector "R" weighted_example))%nat)
  /\ (@simple_average_label _ S weighted_example = Ok O
      /\ (O < length (@simple_average_vector _ S weighted_example))%nat).
Proof.
  intros S.
  destruct (@labels_in_range float S "R" [1; 1]%float weighted_example O)
    as (H1 & H2 & _).
  assert (L1 : @interaction_type_label _ S "R" weighted_example = Ok O)
    by (vm_compute; reflexivity).
  assert (L2 : @simple_average_label _ S weighted_example = Ok O)
    by (vm_compute; reflexivity).
  split; (split; [assumption|]).
  - exact (H1 L1).
  - exact (H2 L2).
Defined.

Section ZipLengths.
Context {F : Type} `{Scalar F}.

Lemma min_length_cons (l : list F) (ls : list (list F)) :
  ls <> [] -> min_length (l :: ls) = Nat.min (length l) (min_length ls).
Proof. destruct ls; [congruence | reflexivity]. Qed.

Lemma heads_None (ls : list (list F)) : heads ls = None -> min_length ls = O.
Proof.
  induction ls as [|l ls IH]; [discriminate|].
  destruct l as [|x l]; [destruct ls; reflexivity|].
  cbn [heads]. destruct (heads ls) as [hs|] eqn:Hhs; [discriminate|].
  intros _. destruct ls as [|l' ls]; [discriminate|].
  rewrite min_length_cons by discriminate. rewrite IH by reflexivity. lia.
Qed.

Lemma heads_Some (ls : list (list F)) (hs : list F) :
  ls <> [] -> heads ls = Some hs ->
  length hs = length ls /\ min_length ls = S (min_length (map (@tail F) ls)).
Proof.
  revert hs. induction ls as [|l ls IH]; intros hs Hne; [congruence|].
  destruct l as [|x l]; [discriminate|].
  cbn [heads]. destruct (heads ls) as [hs'|] eqn:Hhs; [|discriminate].
  intros Heq. injection Heq as <-.
  destruct ls as [|l' ls].
  - injection Hhs as <-. split; reflexivity.
  - destruct (IH hs') as [Hlen Hmin]; [discriminate | reflexivity |].
    split; [simpl; rewrite Hlen; reflexivity|].
    rewrite min_length_cons by discriminate. rewrite Hmin.
    change (map (@tail F) ((x :: l) :: l' :: ls))
      with (l :: map (@tail F) (l' :: ls)).
    rewrite min_length_cons by (simpl; discriminate).
    cbn [length]. lia.
Qed.

Lemma zip_star_fuel_spec (n : nat) (ls : list (list F)) :
  ls <> [] ->
  length (zip_star_fuel n ls) = Nat.min n (min_length ls)
  /\ Forall (fun col => length col = length ls) (zip_star_fuel n ls).
Proof.
  revert ls. induction n as [|n IH]; intros ls Hne; [split; [reflexivity | constructor]|].
  cbn [zip_star_fuel]. destruct (heads ls) as [hs|] eqn:Hhs.
  - destruct (heads_Some ls hs Hne Hhs) as [Hlen Hmin].
    destruct (IH (map (@tail F) ls)) as [IHlen IHcols].
    { destruct ls; [congruence | discriminate]. }
    split.
    + cbn [length]. rewrite IHlen, Hmin. lia.
    + constructor; [exact Hlen|]. rewrite length_map in IHcols. exact IHcols.
  - rewrite (heads_None ls Hhs). split; [simpl; lia | constructor].
Qed.

(** The tuples of [zip]: as many as the shortest vector has items, each with
    one item for each vector. *)
Lemma zip_star_spec (ls : list (list F)) :
  length (zip_star ls) = min_length ls
  /\ Forall (fun col => length col = length ls) (zip_star ls).
Proof.
  destruct ls as [|l ls]; [split; [reflexivity | constructor]|].
  cbn [zip_star]. destruct (zip_star_fuel_spec (length l) (l :: ls)) as [Hlen Hcols];
    [discriminate|].
  split; [|exact Hcols]. rewrite Hlen.
  destruct ls as [|l' ls]; [simpl; lia|].
  rewrite min_length_cons by discriminate. lia.
Qed.

Lemma py_index_from_finds (l : list F) (i k : nat) (m : F) :
  (i <= k < i + length l)%nat -> exists j, py_index_from i k m l = Ok j.
Proof.
  revert i. induction l as [|x l IH]; intros i Hk; simpl in *; [lia|].
  destruct (Nat.eqb_spec i k) as [->|Hne]; cbn [orb]; [eauto|].
  destruct (seqb x m); [eauto|]. apply IH. lia.
Qed.

(** [l.index(max(l))] raises on the empty list only. *)
Lemma index_of_max_returns (l : list F) :
  l <> [] -> exists j, index_of_max l = Ok j.
Proof.
  destruct l as [|x l]; [congruence|]. intros _.
  unfold index_of_max. cbn [py_max_pos]. rewrite result_bind_Ok.
  apply py_index_from_finds.
  pose proof (py_max_from_bound l 1 0 x). cbn [length]. lia.
Qed.

Lemma index_of_max_nil : @index_of_max F _ [] = Raise ValueError.
Proof. reflexivity. Qed.

Lemma py_max_cons (x : F) (l : list F) :
  py_max (x :: l) = Ok (snd (py_max_from 1 0 x l)).
Proof. reflexivity. Qed.

Lemma max_vector_returns (cols : list (list F)) (n : nat) :
  (0 < n)%nat -> Forall (fun col => length col = n) cols ->
  exists v, comprehension py_max cols = Ok v /\ length v = length cols.
Proof.
  intros Hn Hcols. induction Hcols as [|col cols Hcol _ [v [Hv Hlen]]].
  - exists []. split; reflexivity.
  - destruct col as [|x col]; [simpl in Hcol; lia|].
    cbn [comprehension]. rewrite py_max_cons, result_bind_Ok, Hv, result_bind_Ok.
    eexists. split; [reflexivity|]. simpl. rewrite Hlen. reflexivity.
Qed.

(** X7.  [simple_average_fusion] and [max_fusion] look at the positions that
    every expert has: the vector they take the argmax of is as long as the
    shortest of the experts' logits.  They return a label below that length,
    and raise [ValueError] exactly when that length is [0]: when an expert
    has no logits or the example has no expert. *)
Theorem zip_keeps_common_positions (data : example F) :
  let shortest := min_length (dict_values (logits data)) in
  length (simple_average_vector data) = shortest
  /\ (exists v, max_vector data = Ok v /\ length v = shortest)
  /\ (shortest = O ->
      simple_average_label data = Raise ValueError
      /\ max_fusion_label data = Raise ValueError)
  /\ ((0 < shortest)%nat ->
      exists i j, simple_average_label data = Ok i /\ max_fusion_label data = Ok j
                  /\ (i < shortest)%nat /\ (j < shortest)%nat).
Proof.
  intros shortest.
  destruct (zip_star_spec (dict_values (logits data))) as [Hlen Hcols].
  assert (Havg : length (simple_average_vector data) = shortest).
  { unfold simple_average_vector. rewrite length_map. exact Hlen. }
  assert (Hmax : exists v, max_vector data = Ok v /\ length v = shortest).
  { unfold max_vector.
    destruct (dict_values (logits data)) as [|l ls] eqn:Hvalues.
    - exists []. split; reflexivity.
    - destruct (max_vector_returns (zip_star (l :: ls)) (length (l :: ls)))
        as (v & Hv & Hvlen); [simpl; lia | exact Hcols |].
      exists v. split; [exact Hv|]. rewrite Hvlen. exact Hlen. }
  split; [exact Havg|]. split; [exact Hmax|].
  destruct Hmax as (v & Hv & Hvlen). split.
  - intros Hzero. unfold simple_average_label, max_fusion_label.
    rewrite Hv, result_bind_Ok.
    destruct (simple_average_vector data); [|simpl in Havg; lia].
    destruct v; [|simpl in Hvlen; lia]. split; reflexivity.
  - intros Hpos.
    destruct (index_of_max_returns (simple_average_vector data)) as [i Hi].
    { destruct (simple_average_vector data); [simpl in Havg; lia | discriminate]. }
    destruct (index_of_max_returns v) as [j Hj].
    { destruct v; [simpl in Hvlen; lia | discriminate]. }
    exists i, j. unfold simple_average_label, max_fusion_label.
    rewrite Hv, result_bind_Ok. split; [exact Hi|]. split; [exact Hj|].
    apply index_of_max_bound in Hi, Hj. lia.
Qed.

End ZipLengths.

Lemma zip_keeps_common_positions_witness :
  let S := float_scalar exp_series in
  let ragged := Example [("AS", [0; 1; 5]); ("R", [4; 0])]%float (Some 0) in
  length (@simple_average_vector _ S ragged) = 2%nat
  /\ @simple_average_label _ S (Example [("AS", []); ("R", [4; 0])]%float (Some 0))
     = Raise ValueError
  /\ exists i j, @simple_average_label _ S ragged = Ok i
                 /\ @max_fusion_label _ S ragged = Ok j
                 /\ (i < 2)%nat /\ (j < 2)%nat.
Proof.
  intros S ragged.
  destruct (@zip_keeps_common_positions float S ragged) as (Hlen & _ & _ & Hpos).
  destruct (@zip_keeps_common_positions float S
              (Example [("AS", []); ("R", [4; 0])]%float (Some 0)))
    as (_ & _ & Hzero & _).
  split; [exact Hlen|]. split.
  - apply Hzero. reflexivity.
  - apply Hpos. vm_compute. lia.
Defined.

Section MissingExperts.
Context {F : Type} `{Scalar F}.

(** A loop that computes a label for each example raises [ValueError] when
    a label raises and labels raise nothing else. *)
Lemma label_loop_raises {A} (label : example F -> result nat)
    (next : string * example F -> nat -> A -> A)
    (results : pydict (example F)) (a : A) :
  (forall data e, label data = Raise e -> e = ValueError) ->
  (exists kv e, In kv results /\ label (snd kv) = Raise e) ->
  for_each (fun kv st => predicted_label ← label (snd kv); Ok (next kv predicted_label st))
    results a = Raise ValueError.
Proof.
  intros Honly. revert a.
  induction results as [|kv results IH]; intros a (kv' & e & Hin & Hraise); [destruct Hin|].
  rewrite for_each_cons.
  destruct (label (snd kv)) as [e'|p] eqn:Hlabel.
  - rewrite (Honly _ _ Hlabel). reflexivity.
  - rewrite result_bind_Ok. rewrite result_bind_Ok. apply IH.
    destruct Hin as [<-|Hin]; [rewrite Hlabel in Hraise; discriminate|]. eauto.
Qed.

Lemma index_of_max_raises (l : list F) (e : py_error) :
  index_of_max l = Raise e -> e = ValueError.
Proof.
  destruct l as [|x l].
  - intros Hraise. injection Hraise as <-. reflexivity.
  - destruct (index_of_max_returns (x :: l)) as [j Hj]; [discriminate|].
    rewrite Hj. discriminate.
Qed.

(** X8.  [interaction_type_acc] on an index where some example does not hold
    the expert asked for, or holds it with no logits, raises [ValueError]
    (the [max] of an empty list), in both scripts: the missing key itself
    raises nothing, the logits being a [defaultdict]. *)
Theorem interaction_type_missing_expert (results : pydict (example F))
    (interaction_type : string) (id : string) (data : example F) :
  In (id, data) results ->
  dict_get interaction_type (logits data) = None
  \/ dict_get interaction_type (logits data) = Some [] ->
  interaction_type_acc results interaction_type = Raise ValueError
  /\ sarc_interaction_type_acc results interaction_type = Raise ValueError.
Proof.
  intros Hin Hmissing.
  assert (Hraise : interaction_type_label interaction_type data = Raise ValueError).
  { unfold interaction_type_label, interaction_type_vector, defaultdict_item.
    destruct Hmissing as [-> | ->]; reflexivity. }
  assert (Honly : forall d e, interaction_type_label interaction_type d = Raise e ->
                              e = ValueError).
  { intros d e. apply index_of_max_raises. }
  split.
  - unfold interaction_type_acc, score_examples.
    rewrite (label_loop_raises (interaction_type_label interaction_type)
               (fun kv p st => (fst st ++ [target (snd kv)], snd st ++ [p])%list));
      [reflexivity | exact Honly |].
    exists (id, data), ValueError. split; assumption.
  - unfold sarc_interaction_type_acc, sarc_accuracy.
    rewrite (label_loop_raises (interaction_type_label interaction_type)
               (fun kv p correct => if is_correct p (snd kv) then S correct else correct));
      [reflexivity | exact Honly |].
    exists (id, data), ValueError. split; assumption.
Qed.

Lemma fresh_item_Some (data : example F) (k : string) (l : list F) :
  NoDup (dict_keys (logits data)) -> dict_get k (logits data) = Some l ->
  dict_item k (store_softmax data []) = Ok (softmax l).
Proof.
  intros Hnd Hget. unfold dict_item. rewrite store_softmax_get, Hget by exact Hnd.
  reflexivity.
Qed.

Lemma fresh_item_None (data : example F) (k : string) :
  NoDup (dict_keys (logits data)) -> dict_get k (logits data) = None ->
  dict_item k (store_softmax data []) = Raise (KeyError k).
Proof.
  intros Hnd Hget. unfold dict_item. rewrite store_softmax_get, Hget by exact Hnd.
  reflexivity.
Qed.

(** X9.  The experts that [cascaded_fusion] of [sarc_fusion.py] asks an
    example for.  Without [R] it raises [KeyError].  With an [R] that does
    not exceed the threshold, [U] is not read: the label is that of [AS],
    and a missing [AS] raises [KeyError].  With an [R] that exceeds it, a
    missing [U] raises [KeyError].  When both exceed it, [AS] is not read. *)
Theorem cascade_reads_experts_lazily (t : F) (data : example F) :
  NoDup (dict_keys (logits data)) ->
  (dict_get "R" (logits data) = None ->
     sarc_cascaded_label t data = Raise (KeyError "R"))
  /\ (forall lr max_r,
       dict_get "R" (logits data) = Some lr -> np_max (softmax lr) = Ok max_r ->
       sgtb max_r t = false ->
       sarc_cascaded_label t data
       = match dict_get "AS" (logits data) with
         | Some las => np_argmax (softmax las)
         | None => Raise (KeyError "AS")
         end)
  /\ (forall lr max_r,
       dict_get "R" (logits data) = Some lr -> np_max (softmax lr) = Ok max_r ->
       sgtb max_r t = true -> dict_get "U" (logits data) = None ->
       sarc_cascaded_label t data = Raise (KeyError "U"))
  /\ (forall lr lu max_r max_u,
       dict_get "R" (logits data) = Some lr -> np_max (softmax lr) = Ok max_r ->
       dict_get "U" (logits data) = Some lu -> np_max (softmax lu) = Ok max_u ->
       sgtb max_r t = true -> sgtb max_u t = true ->
       sarc_cascaded_label t data
       = if sgtb max_r max_u then np_argmax (softmax lr) else np_argmax (softmax lu)).
Proof.
  intros Hnd. unfold sarc_cascaded_label, cascaded_decision.
  repeat apply conj.
  - intros HR. rewrite (fresh_item_None data "R" Hnd HR). reflexivity.
  - intros lr max_r HR Hmr Hlow.
    rewrite (fresh_item_Some data "R" lr Hnd HR).
    rewrite ?result_bind_Ok, Hmr, ?result_bind_Ok, Hlow, ?result_bind_Ok.
    destruct (dict_get "AS" (logits data)) as [las|] eqn:HAS.
    + rewrite (fresh_item_Some data "AS" las Hnd HAS). reflexivity.
    + rewrite (fresh_item_None data "AS" Hnd HAS). reflexivity.
  - intros lr max_r HR Hmr Hhigh HU.
    rewrite (fresh_item_Some data "R" lr Hnd HR), (fresh_item_None data "U" Hnd HU).
    rewrite ?result_bind_Ok, Hmr, ?result_bind_Ok, Hhigh. reflexivity.
  - intros lr lu max_r max_u HR Hmr HU Hmu Hr Hu.
    rewrite (fresh_item_Some data "R" lr Hnd HR), (fresh_item_Some data "U" lu Hnd HU).
    rewrite ?result_bind_Ok, Hmr, ?result_bind_Ok, Hr, Hmu.
    rewrite ?result_bind_Ok, Hu, ?result_bind_Ok.
    destruct (sgtb max_r max_u); reflexivity.
Qed.

End MissingExperts.

Lemma interaction_type_missing_expert_witness :
  let S := float_scalar exp_series in
  @interaction_type_acc _ S [("1_a", weighted_example); ("7_wow", no_U_example)] "U"
    = Raise ValueError
  /\ @sarc_interaction_type_acc _ S [("1_a", weighted_example); ("7_wow", no_U_example)] "U"
    = Raise ValueError.
Proof.
  intros S.
  apply (@interaction_type_missing_expert float S
           [("1_a", weighted_example); ("7_wow", no_U_example)] "U" "7_wow" no_U_example).
  - right. left. reflexivity.
  - left. reflexivity.
Defined.

Lemma cascade_reads_experts_lazily_witness :
  let S := float_scalar exp_series in
  @sarc_cascaded_label _ S 0.75%float no_U_example = Ok 1%nat
  /\ @sarc_cascaded_label _ S 0.25%float no_U_example = Raise (KeyError "U").
Proof.
  intros S.
  assert (Hnd : NoDup (dict_keys (logits no_U_example)))
    by (apply (bool_decide_unpack _); vm_compute; exact I).
  destruct (@cascade_reads_experts_lazily float S 0.75%float no_U_example Hnd)
    as (_ & Hlow & _ & _).
  destruct (@cascade_reads_experts_lazily float S 0.25%float no_U_example Hnd)
    as (_ & _ & Hhigh & _).
  split.
  - rewrite (Hlow [0; 0]%float 0.5%float); vm_compute; reflexivity.
  - apply (Hhigh [0; 0]%float 0.5%float); vm_compute; reflexivity.
Defined.

Section CompleteData.
Context {F : Type} `{Scalar F}.

(** The decision reads the entries ["R"], ["U"] and ["AS"] only. *)
Lemma cascaded_decision_ext (t : F) (sp sp' : pydict (list F)) :
  dict_get "R" sp = dict_get "R" sp' ->
  dict_get "U" sp = dict_get "U" sp' ->
  dict_get "AS" sp = dict_get "AS" sp' ->
  cascaded_decision t sp = cascaded_decision t sp'.
Proof.
  intros HR HU HAS. unfold cascaded_decision, dict_item. rewrite HR, HU, HAS.
  reflexivity.
Qed.

Lemma complete_decision (t : F) (data : example F) (sp : pydict (list F)) :
  complete_example data ->
  cascaded_decision t (store_softmax data sp) = sarc_cascaded_label t data.
Proof.
  intros (Hnd & [lr HR] & [lu HU] & [las HAS]). unfold sarc_cascaded_label.
  apply cascaded_decision_ext; rewrite !store_softmax_get by exact Hnd.
  - rewrite HR. reflexivity.
  - rewrite HU. reflexivity.
  - rewrite HAS. reflexivity.
Qed.

Lemma cascaded_body_eq (t : F) (kv : string * example F) (sp : pydict (list F))
    (gp : list (option Z) * list nat) :
  cascaded_body t kv (sp, gp)
  = cascaded_decision t (store_softmax (snd kv) sp)
      ≫= fun predicted_label =>
           Ok (store_softmax (snd kv) sp,
               (fst gp ++ [target (snd kv)], snd gp ++ [predicted_label])%list).
Proof. reflexivity. Qed.

Lemma complete_loop (t : F) (results : pydict (example F))
    (sp : pydict (list F)) (gp : list (option Z) * list nat) :
  Forall (fun kv => complete_example (snd kv)) results ->
  snd <$> for_each (cascaded_body t) results (sp, gp)
  = for_each (fun kv st =>
                predicted_label ← sarc_cascaded_label t (snd kv);
                Ok (fst st ++ [target (snd kv)], snd st ++ [predicted_label])%list)
      results gp.
Proof.
  intros Hall. revert sp gp.
  induction Hall as [|kv results Hkv _ IH]; intros sp gp; [reflexivity|].
  rewrite !for_each_cons, cascaded_body_eq.
  rewrite (complete_decision t (snd kv) sp Hkv).
  destruct (sarc_cascaded_label t (snd kv)) as [e|p]; [reflexivity|].
  rewrite ?result_bind_Ok. apply IH.
Qed.

(** X10.  On an index whose examples all hold the experts [R], [U] and [AS],
    [cascaded_fusion] of [mustard_fusion.py] labels every example as
    [sarc_fusion.py] does, from the example alone: what the dictionary
    [softmaxed_probs] keeps of the previous examples is overwritten before
    it is read.  The two scripts then agree on the outcome of the whole
    loop, exceptions included. *)
Theorem cascaded_fusion_on_complete_index (t : F) (results : pydict (example F)) :
  Forall (fun kv => complete_example (snd kv)) results ->
  cascaded_scores results t = score_examples (sarc_cascaded_label t) results
  /\ cascaded_fusion results t
    = (gp ← score_examples (sarc_cascaded_label t) results; evaluate (fst gp) (snd gp)).
Proof.
  intros Hall.
  assert (Hscores : cascaded_scores results t
                    = score_examples (sarc_cascaded_label t) results)
    by apply (complete_loop t results [] ([], []) Hall).
  split; [exact Hscores|]. unfold cascaded_fusion. rewrite Hscores. reflexivity.
Qed.

End CompleteData.

Lemma cascaded_fusion_on_complete_index_witness :
  let S := float_scalar exp_series in
  @cascaded_scores _ S [("1_a", confident_first64); ("7_wow", confident_example)] 0.5%float
  = score_examples (@sarc_cascaded_label _ S 0.5%float)
      [("1_a", confident_first64); ("7_wow", confident_example)].
Proof.
  intros S.
  apply (@cascaded_fusion_on_complete_index float S 0.5%float
           [("1_a", confident_first64); ("7_wow", confident_example)]).
  forall_list ltac:(split; [apply (bool_decide_unpack _); vm_compute; exact I
                           | repeat split; eexists; reflexivity]).
Defined.

(** * The strategies in exact arithmetic *)

Local Open Scope list_scope.

Lemma first_max_unique (l : list R) (i j : nat) :
  first_max l i -> first_max l j -> i = j.
Proof.
  intros (x & Hx & Hmax & Hfirst) (y & Hy & Hmax' & Hfirst').
  destruct (Nat.lt_trichotomy i j) as [Hlt|[Heq|Hlt]]; [|exact Heq|]; exfalso.
  - pose proof (Hfirst' i x Hlt Hx).
    assert (In y l) by (apply list_elem_of_In, list_elem_of_lookup; eauto).
    pose proof (Hmax y ltac:(assumption)). lra.
  - pose proof (Hfirst j y Hlt Hy).
    assert (In x l) by (apply list_elem_of_In, list_elem_of_lookup; eauto).
    pose proof (Hmax' x ltac:(assumption)). lra.
Qed.

Lemma first_max_snoc_invariant (pre : list R) (x mp : R) (k : nat) :
  pre !! k = Some mp ->
  (forall y, In y pre -> (y <= mp)%R) ->
  (forall j y, (j < k)%nat -> pre !! j = Some y -> (y < mp)%R) ->
  (x <= mp)%R ->
  (pre ++ [x]) !! k = Some mp
  /\ (forall y, In y (pre ++ [x]) -> (y <= mp)%R)
  /\ (forall j y, (j < k)%nat -> (pre ++ [x]) !! j = Some y -> (y < mp)%R).
Proof.
  intros Hk Hmax Hfirst Hx.
  pose proof (lookup_lt_Some _ _ _ Hk) as Hlt.
  split; [rewrite lookup_app_l by exact Hlt; exact Hk|]. split.
  - intros y Hy. apply in_app_or in Hy as [Hy|[<-|[]]]; [apply Hmax, Hy | exact Hx].
  - intros j y Hj Hy. rewrite lookup_app_l in Hy by lia. eapply Hfirst; eassumption.
Qed.

Lemma first_max_snoc_new (pre : list R) (x mp : R) (k : nat) :
  (forall y, In y pre -> (y <= mp)%R) ->
  (mp < x)%R ->
  (pre ++ [x]) !! length pre = Some x
  /\ (forall y, In y (pre ++ [x]) -> (y <= x)%R)
  /\ (forall j y, (j < length pre)%nat -> (pre ++ [x]) !! j = Some y -> (y < x)%R).
Proof.
  intros Hmax Hx.
  split; [rewrite lookup_app_r, Nat.sub_diag by lia; reflexivity|]. split.
  - intros y Hy. apply in_app_or in Hy as [Hy|[<-|[]]]; [|lra].
    pose proof (Hmax y Hy). lra.
  - intros j y Hj Hy. rewrite lookup_app_l in Hy by lia.
    assert (In y pre) by (apply list_elem_of_In, list_elem_of_lookup; eauto).
    pose proof (Hmax y ltac:(assumption)). lra.
Qed.

Lemma np_argmax_from_first_max (a pre : list R) (k : nat) (mp : R) :
  pre !! k = Some mp ->
  (forall y, In y pre -> (y <= mp)%R) ->
  (forall j y, (j < k)%nat -> pre !! j = Some y -> (y < mp)%R) ->
  first_max (pre ++ a) (@np_argmax_from R real_scalar (length pre) k mp a).
Proof.
  revert pre k mp. induction a as [|x a IH]; intros pre k mp Hk Hmax Hfirst.
  - rewrite app_nil_r. exists mp. auto.
  - cbn [np_argmax_from]. rewrite is_nan_real.
    change (@sleb R real_scalar x mp) with (Rleb x mp).
    replace (pre ++ x :: a)%list with ((pre ++ [x]) ++ a)%list
      by (rewrite <- app_assoc; reflexivity).
    replace (S (length pre)) with (length (pre ++ [x]))
      by (rewrite length_app; simpl; lia).
    destruct (Rle_dec x mp) as [Hle|Hgt].
    + replace (Rleb x mp) with true by (symmetry; apply Rleb_true; exact Hle).
      cbn [negb].
      destruct (first_max_snoc_invariant pre x mp k Hk Hmax Hfirst Hle) as (H1 & H2 & H3).
      apply IH; assumption.
    + rewrite Rleb_false by lra. cbn [negb].
      destruct (first_max_snoc_new pre x mp k Hmax ltac:(lra)) as (H1 & H2 & H3).
      replace (length pre) with (length pre) in H1 by reflexivity.
      rewrite length_app. cbn [length]. rewrite Nat.add_1_r.
      replace (S (length pre)) with (length (pre ++ [x]))
        by (rewrite length_app; simpl; lia).
      apply IH; assumption.
Qed.

Lemma py_max_from_first_max (a pre : list R) (k : nat) (m : R) :
  pre !! k = Some m ->
  (forall y, In y pre -> (y <= m)%R) ->
  (forall j y, (j < k)%nat -> pre !! j = Some y -> (y < m)%R) ->
  let km := @py_max_from R real_scalar (length pre) k m a in
  (pre ++ a) !! fst km = Some (snd km)
  /\ (forall y, In y (pre ++ a) -> (y <= snd km)%R)
  /\ (forall j y, (j < fst km)%nat -> (pre ++ a) !! j = Some y -> (y < snd km)%R).
Proof.
  revert pre k m. induction a as [|x a IH]; intros pre k m Hk Hmax Hfirst.
  - cbn. rewrite app_nil_r. auto.
  - cbn [py_max_from]. unfold sgtb. change (@sltb R real_scalar m x) with (Rltb m x).
    replace (pre ++ x :: a)%list with ((pre ++ [x]) ++ a)%list
      by (rewrite <- app_assoc; reflexivity).
    replace (S (length pre)) with (length (pre ++ [x]))
      by (rewrite length_app; simpl; lia).
    destruct (Rlt_dec m x) as [Hlt|Hge].
    + replace (Rltb m x) with true by (symmetry; apply Rltb_true; exact Hlt).
      destruct (first_max_snoc_new pre x m k Hmax Hlt) as (H1 & H2 & H3).
      apply IH; assumption.
    + rewrite Rltb_false by lra.
      destruct (first_max_snoc_invariant pre x m k Hk Hmax Hfirst ltac:(lra))
        as (H1 & H2 & H3).
      apply IH; assumption.
Qed.

Lemma py_index_from_first (rest pre : list R) (k : nat) (m : R) :
  (pre ++ rest) !! k = Some m ->
  (length pre <= k)%nat ->
  (forall j y, (j < k)%nat -> (pre ++ rest) !! j = Some y -> (y < m)%R) ->
  @py_index_from R real_scalar (length pre) k m rest = Ok k.
Proof.
  revert pre. induction rest as [|x rest IH]; intros pre Hk Hle Hfirst.
  - rewrite app_nil_r in Hk. apply lookup_lt_Some in Hk. lia.
  - cbn [py_index_from]. destruct (Nat.eqb_spec (length pre) k) as [->|Hne];
      [reflexivity|].
    cbn [orb]. change (@seqb R real_scalar x m) with (Reqb x m).
    assert (Hx : (x < m)%R).
    { apply (Hfirst (length pre)); [lia|].
      rewrite lookup_app_r, Nat.sub_diag by lia. reflexivity. }
    replace (Reqb x m) with false.
    2:{ symmetry. destruct (Reqb x m) eqn:E; [apply Reqb_true in E; lra | reflexivity]. }
    replace (S (length pre)) with (length (pre ++ [x]))
      by (rewrite length_app; simpl; lia).
    apply IH.
    + rewrite <- app_assoc. exact Hk.
    + rewrite length_app. simpl. lia.
    + intros j y Hj Hy. rewrite <- app_assoc in Hy. eapply Hfirst; eassumption.
Qed.

Lemma argmax_is_first_maximum_core (l : list R) :
  l <> [] ->
  exists i, @index_of_max R real_scalar l = Ok i
            /\ @np_argmax R real_scalar l = Ok i
            /\ first_max l i
            /\ (forall j, first_max l j -> j = i).
Proof.
  destruct l as [|x l]; [congruence|]. intros _.
  assert (H0 : [x] !! O = Some x) by reflexivity.
  assert (H1 : forall y, In y [x] -> (y <= x)%R) by (intros y [<-|[]]; lra).
  assert (H2 : forall j y, (j < 0)%nat -> [x] !! j = Some y -> (y < x)%R)
    by (intros j y Hj; lia).
  pose proof (np_argmax_from_first_max l [x] 0 x H0 H1 H2) as Hnp.
  pose proof (py_max_from_first_max l [x] 0 x H0 H1 H2) as (Hk & Hmax & Hfirst).
  cbn [length app] in *.
  set (km := @py_max_from R real_scalar 1 0 x l) in *.
  assert (Hpy : first_max (x :: l) (fst km)) by (exists (snd km); auto).
  assert (Heq : @np_argmax_from R real_scalar 1 0 x l = fst km)
    by (eapply first_max_unique; eassumption).
  exists (fst km). repeat apply conj.
  - unfold index_of_max. cbn [py_max_pos]. rewrite result_bind_Ok.
    apply (py_index_from_first (x :: l) [] (fst km) (snd km)); [exact Hk | simpl; lia|].
    exact Hfirst.
  - unfold np_argmax. rewrite is_nan_real, Heq. reflexivity.
  - exact Hpy.
  - intros j Hj. eapply first_max_unique; eassumption.
Qed.

(** X11.  In exact arithmetic the two ways the strategies take an argmax,
    [l.index(max(l))] and [np.argmax(l)], return the same position on a list
    that is not empty: the first position of a greatest item, which is the
    only position with that property. *)
Theorem argmax_is_first_maximum (l : list R) :
  l <> [] ->
  exists i, @index_of_max R real_scalar l = Ok i
            /\ @np_argmax R real_scalar l = Ok i
            /\ first_max l i
            /\ (forall j, first_max l j -> j = i).
Proof. apply argmax_is_first_maximum_core. Qed.

Lemma argmax_is_first_maximum_witness :
  exists i, @index_of_max R real_scalar [1; 3; 2; 3]%R = Ok i
            /\ @np_argmax R real_scalar [1; 3; 2; 3]%R = Ok i
            /\ first_max [1; 3; 2; 3]%R i
            /\ (forall j, first_max [1; 3; 2; 3]%R j -> j = i).
Proof. apply argmax_is_first_maximum. discriminate. Defined.














(** ** The threshold of the cascade *)










(** ** The accuracy of the two scripts *)

Section Accuracy.
Context {F : Type}.







End Accuracy.


(** ** The experts of a weighted average *)

Section WeightedErrors.
Context {F : Type} `{Scalar F}.

(** The sum at position [i] raises as soon as a weighted expert has no
    item there. *)
Lemma weighted_sum_short (pairs : list (F * list F)) (i : nat) (acc : F) :
  (exists wl, In wl pairs /\ (length (snd wl) <= i)%nat) ->
  for_each (fun wl acc =>
              match snd wl !! i with
              | Some x => Ok (sadd acc (smul (fst wl) x))
              | None => Raise IndexError
              end) pairs acc
  = Raise IndexError.
Proof.
  revert acc. induction pairs as [|wl pairs IH]; intros acc (wl' & Hin & Hlen);
    [destruct Hin|].
  rewrite for_each_cons. destruct (snd wl !! i) as [x|] eqn:Hx; [|reflexivity].
  rewrite result_bind_Ok. apply IH.
  destruct Hin as [<-|Hin]; [|eauto].
  apply lookup_lt_Some in Hx. lia.
Qed.

Lemma weighted_sum_outcome (weights : list F) (values : list (list F)) (i : nat) :
  weighted_sum weights values i = Raise IndexError
  \/ exists x, weighted_sum weights values i = Ok x.
Proof.
  unfold weighted_sum. generalize (@szero F _).
  induction (combine weights values) as [|wl pairs IH]; intros acc; [right; eexists; reflexivity|].
  rewrite for_each_cons. destruct (snd wl !! i) as [x|]; [|left; reflexivity].
  rewrite result_bind_Ok. apply IH.
Qed.

Lemma comprehension_raises {A B} (f : A -> result B) (l : list A) (e : py_error) :
  (forall x, In x l -> f x = Raise e \/ exists y, f x = Ok y) ->
  (exists x, In x l /\ f x = Raise e) ->
  comprehension f l = Raise e.
Proof.
  induction l as [|x l IH]; intros Hout (x' & Hin & Hraise); [destruct Hin|].
  cbn [comprehension].
  destruct (Hout x (or_introl eq_refl)) as [Hx|[y Hx]]; rewrite Hx; [reflexivity|].
  rewrite result_bind_Ok.
  rewrite IH; [reflexivity | intros z Hz; apply Hout; right; exact Hz |].
  destruct Hin as [<-|Hin]; [rewrite Hx in Hraise; discriminate | eauto].
Qed.

Lemma take_combine (weights : list F) (values : list (list F)) (lg : list F) :
  In lg (take (length weights) values) -> exists w, In (w, lg) (combine weights values).
Proof.
  revert values. induction weights as [|w weights IH]; intros values Hin.
  - destruct values; destruct Hin.
  - destruct values as [|v values]; [destruct Hin|].
    cbn [length take] in Hin. destruct Hin as [<-|Hin].
    + exists w. left. reflexivity.
    + destruct (IH values Hin) as [w' Hw']. exists w'. right. exact Hw'.
Qed.

(** X17.  The experts [weighted_average_fusion] needs, in both scripts.  An
    example without expert raises [StopIteration].  The positions are those
    of the first expert: when an expert that has a weight is shorter than
    the first one the label raises [IndexError], where the plain average
    stops at the shortest expert; when none is shorter, the vector has the
    length of the first expert, and the label is a position of it, or a
    [ValueError] when the first expert has no logits. *)
Theorem weighted_average_needs_experts (weights : list F) (data : example F) :
  (logits data = [] -> weighted_average_label weights data = Raise StopIteration)
  /\ (forall first rest,
        dict_values (logits data) = first :: rest ->
        (Exists (fun lg => (length lg < length first)%nat)
           (take (length weights) (first :: rest)) ->
         weighted_average_label weights data = Raise IndexError)
        /\ (Forall (fun lg => (length first <= length lg)%nat)
              (take (length weights) (first :: rest)) ->
            (exists v, weighted_vector weights data = Ok v /\ length v = length first)
            /\ (first = [] -> weighted_average_label weights data = Raise ValueError)
            /\ (first <> [] ->
                exists i, weighted_average_label weights data = Ok i
                          /\ (i < length first)%nat))).
Proof.
  split.
  - intros Hnone. unfold weighted_average_label, weighted_vector. rewrite Hnone.
    reflexivity.
  - intros first rest Hvalues. split.
    + intros Hshort. apply List.Exists_exists in Hshort as (lg & Hin & Hlen).
      destruct (take_combine weights (first :: rest) lg Hin) as [w Hw].
      unfold weighted_average_label, weighted_vector. rewrite Hvalues.
      rewrite (comprehension_raises _ _ IndexError); [reflexivity | |].
      * intros i _. apply weighted_sum_outcome.
      * exists (length lg). split; [apply in_seq; lia|].
        apply weighted_sum_short. exists (w, lg). split; [exact Hw | simpl; lia].
    + intros Hlong.
      assert (Hvec : weighted_vector weights data
                     = Ok (elementwise_weighted_sum weights (first :: rest) (length first))).
      { unfold weighted_vector, elementwise_weighted_sum. rewrite Hvalues.
        apply comprehension_map. intros i Hi. apply in_seq in Hi.
        unfold weighted_sum. rewrite combine_firstn_l.
        apply weighted_sum_fold. intros [w lg] Hin. apply in_combine_r in Hin.
        rewrite List.Forall_forall in Hlong. apply Hlong in Hin. simpl in *. lia. }
      assert (Hlen : length (elementwise_weighted_sum weights (first :: rest) (length first))
                     = length first).
      { unfold elementwise_weighted_sum. rewrite length_map, length_seq. reflexivity. }
      split; [eexists; split; [exact Hvec | exact Hlen]|].
      unfold weighted_average_label. rewrite Hvec, result_bind_Ok. split.
      * intros ->. reflexivity.
      * intros Hne.
        destruct (index_of_max_returns
                    (elementwise_weighted_sum weights (first :: rest) (length first)))
          as [i Hi].
        { intros Hnil. rewrite Hnil in Hlen. destruct first; [congruence | discriminate]. }
        exists i. split; [exact Hi|]. apply index_of_max_bound in Hi. lia.
Qed.

End WeightedErrors.

Lemma weighted_average_needs_experts_witness :
  let S := float_scalar exp_series in
  let ragged := Example [("AS", [0; 1; 5]); ("R", [4; 0])]%float (Some 0) in
  @weighted_average_label _ S [1; 1]%float ragged = Raise IndexError
  /\ exists i, @weighted_average_label _ S [1]%float ragged = Ok i /\ (i < 3)%nat.
Proof.
  intros S ragged.
  destruct (@weighted_average_needs_experts float S [1; 1]%float ragged) as [_ Htwo].
  destruct (@weighted_average_needs_experts float S [1]%float ragged) as [_ Hone].
  destruct (Htwo [0; 1; 5]%float [[4; 0]%float] eq_refl) as [Hshort _].
  destruct (Hone [0; 1; 5]%float [[4; 0]%float] eq_refl) as [_ Hlong].
  split.
  - apply Hshort. apply List.Exists_cons_tl, List.Exists_cons_hd. simpl. lia.
  - destruct Hlong as (_ & _ & Hlabel).
    + forall_list ltac:(simpl; lia).
    + apply Hlabel. discriminate.
Defined.

(** ** The fusion with weights from a file *)

Section FusionModelRuns.
Context {F : Type} `{Scalar F}.

Lemma list_item_Ok {A} (l : list A) (i : nat) (x : A) :
  list_item l i = Ok x -> (i < length l)%nat.
Proof.
  unfold list_item. destruct (l !! i) eqn:Hi; [|discriminate].
  intros _. eapply lookup_lt_Some, Hi.
Qed.

(** A term that is computed found the expert and the weight. *)
Lemma model_term_Ok (rus_logits : pydict (list F)) (ps : list (list F))
    (id : string) (k : nat) (v : list F) :
  model_term rus_logits ps id k = Ok v ->
  (k < length ps)%nat
  /\ exists ws, dict_get id rus_logits = Some ws /\ (k < length ws)%nat.
Proof.
  unfold model_term, dict_item.
  destruct (list_item ps k) as [e|p] eqn:Hp; [discriminate|].
  rewrite result_bind_Ok.
  destruct (dict_get id rus_logits) as [ws|]; [|discriminate].
  rewrite result_bind_Ok.
  destruct (list_item ws k) as [e|w] eqn:Hw; [discriminate|].
  intros _. split; [eapply list_item_Ok, Hp|].
  exists ws. split; [reflexivity | eapply list_item_Ok, Hw].
Qed.

Lemma model_label_Ok (rus_logits : pydict (list F)) (id : string) (data : example F)
    (label : nat) :
  model_label rus_logits id data = Ok label ->
  (3 <= length (logits data))%nat
  /\ exists ws, dict_get id rus_logits = Some ws /\ (3 <= length ws)%nat.
Proof.
  unfold model_label, model_vector.
  destruct (model_term rus_logits _ id 0) as [e|t0]; [discriminate|].
  rewrite result_bind_Ok.
  destruct (model_term rus_logits _ id 1) as [e|t1]; [discriminate|].
  rewrite result_bind_Ok.
  destruct (np_add t0 t1) as [e|s]; [discriminate|].
  rewrite result_bind_Ok.
  destruct (model_term rus_logits _ id 2) as [e|t2] eqn:Ht2; [discriminate|].
  intros _. apply model_term_Ok in Ht2 as [Hlen Hws].
  unfold dict_values in Hlen. rewrite !length_map in Hlen. split; [lia|].
  destruct Hws as (ws & Hget & Hlen'). exists ws. split; [exact Hget | lia].
Qed.

Lemma model_loop_Ok (rus_logits : pydict (list F)) (results : pydict (example F))
    (st st' : list (option Z) * list nat) :
  for_each (fun kv st =>
              predicted_label ← model_label rus_logits (fst kv) (snd kv);
              Ok (fst st ++ [target (snd kv)], snd st ++ [predicted_label])%list)
    results st = Ok st' ->
  Forall (fun kv => exists label, model_label rus_logits (fst kv) (snd kv) = Ok label)
    results.
Proof.
  revert st. induction results as [|kv results IH]; intros st; [constructor|].
  rewrite for_each_cons.
  destruct (model_label rus_logits (fst kv) (snd kv)) as [e|label] eqn:Hlabel;
    [discriminate|].
  rewrite !result_bind_Ok. intros Hrun. constructor; [eauto | eapply IH, Hrun].
Qed.

(** X18.  [simple_average_fusion_model] returns only on an index whose
    examples all hold at least three experts and have at least three weights
    in the file.  On the first example it meets without expert it raises
    [IndexError]; on the first one with an expert and no entry in the file it
    raises [KeyError]. *)
Theorem fusion_model_needs_three (rus_logits : pydict (list F))
    (results : pydict (example F)) :
  (forall m, simple_average_fusion_model rus_logits results = Ok m ->
     Forall (fun kv => (3 <= length (logits (snd kv)))%nat
                       /\ exists ws, dict_get (fst kv) rus_logits = Some ws
                                     /\ (3 <= length ws)%nat) results)
  /\ (forall id data rest,
        results = (id, data) :: rest ->
        (logits data = [] ->
         simple_average_fusion_model rus_logits results = Raise IndexError)
        /\ (logits data <> [] -> dict_get id rus_logits = None ->
            simple_average_fusion_model rus_logits results = Raise (KeyError id))).
Proof.
  split.
  - intros m. unfold simple_average_fusion_model, model_scores.
    destruct (for_each _ results ([], [])) as [e|gp] eqn:Hrun; [discriminate|].
    intros _. apply model_loop_Ok in Hrun.
    eapply Forall_impl; [exact Hrun|].
    intros kv [label Hlabel]. eapply model_label_Ok, Hlabel.
  - intros id data rest ->. split.
    + intros Hnone. unfold simple_average_fusion_model, model_scores.
      rewrite for_each_cons. cbn [fst snd].
      unfold model_label, model_vector, model_term. rewrite Hnone. reflexivity.
    + intros Hsome Hmissing. unfold simple_average_fusion_model, model_scores.
      rewrite for_each_cons. cbn [fst snd].
      unfold model_label, model_vector, model_term, dict_item. rewrite Hmissing.
      destruct (logits data) as [|kl ls]; [congruence | reflexivity].
Qed.

End FusionModelRuns.

Lemma fusion_model_needs_three_witness :
  let S := float_scalar exp_series in
  Forall (fun kv => (3 <= length (logits (snd kv)))%nat
                    /\ exists ws, dict_get (fst kv) rus_file = Some ws
                                  /\ (3 <= length ws)%nat) [("7_wow", four_experts)].
Proof.
  intros S.
  destruct (@fusion_model_needs_three float S rus_file [("7_wow", four_experts)])
    as [Hreturns _].
  apply (Hreturns (Metrics 0 0 0 (Some 0%Q))).
  vm_compute. reflexivity.
Defined.








(** ** One expert *)






